(** * Release-note generation ([generate_release_notes.py])

    A shallow embedding of the script: the user directory, the role sets,
    the label classifier, the scan of earlier reports and the renderer,
    followed by the properties of the generated report.

    Modelling choices.
    - A Python [str] is the [string] of the bytes of its UTF-8 encoding.
      In that encoding an ASCII byte such as [@], [.] or the newline occurs
      only as the character itself, and comparing two strings byte by byte
      compares the texts code point by code point, as Python does.
    - [str.lower] and the matching of the class [\w] belong to Python and
      depend on its Unicode tables: the script is parameterised by them
      ([Unicode]).  Their restrictions to ASCII text ([ascii_only]) are
      used to run examples, all of which are ASCII.
    - Python sets of logins are [gset string], the [users] and correction
      dictionaries are [gmap string string]; dictionaries whose iteration
      order is observable ([highlights], its sections, [label_to_section])
      are association lists in insertion order.
    - The script mutates module-level collections and may stop with an
      exception; this is a state-and-exception monad [M] in which a raised
      exception keeps the state reached so far.
    - The hosting API is input data: a pull request carries the commit that
      [repo.get_commit(pull.merge_commit_sha)] returns, its reviews and the
      user of [pull.as_issue()].
    - The target directory is input data.  [run] is the run in which every
      file operation succeeds, over the files and their contents;
      [run_files] takes the directory with what opening and reading each
      file gives, a content or an exception.  A report is the text that
      the calls of [print] write to the handle, once it is open. *)

From Stdlib Require Import ZArith Ascii DecimalString Sorted Permutation.
From stdpp Require Import gmap strings list fin_maps.

(** ** Text *)

Module Text.

Definition nl : string := String "010"%char "".

Definition is_upper (c : ascii) : bool :=
  (65 <=? N_of_ascii c)%N && (N_of_ascii c <=? 90)%N.
Definition is_lower (c : ascii) : bool :=
  (97 <=? N_of_ascii c)%N && (N_of_ascii c <=? 122)%N.
Definition is_digit (c : ascii) : bool :=
  (48 <=? N_of_ascii c)%N && (N_of_ascii c <=? 57)%N.
Definition is_alnum (c : ascii) : bool :=
  is_upper c || is_lower c || is_digit c.

(** [str.lower()] of ASCII text: the bytes of other characters are left
    as they are, where [str.lower] may change them. *)
Definition lower_char (c : ascii) : ascii :=
  if is_upper c then ascii_of_N (N_of_ascii c + 32) else c.

Fixpoint map_chars (f : ascii → ascii) (s : string) : string :=
  match s with
  | "" => ""
  | String c s' => String (f c) (map_chars f s')
  end.

Definition lower_ascii : string → string := map_chars lower_char.

(** [s.replace(old, new)] for one-character [old] and [new]. *)
Definition replace (old new : ascii) : string → string :=
  map_chars (λ c, if Ascii.eqb c old then new else c).

Fixpoint all_chars (p : ascii → bool) (s : string) : bool :=
  match s with
  | "" => true
  | String c s' => p c && all_chars p s'
  end.

Fixpoint starts_with (p s : string) : bool :=
  match p, s with
  | "", _ => true
  | String a p', String b s' => Ascii.eqb a b && starts_with p' s'
  | String _ _, "" => false
  end.

Fixpoint drop_chars (n : nat) (s : string) : string :=
  match n, s with
  | S n', String _ s' => drop_chars n' s'
  | _, _ => s
  end.

Definition ends_with (p s : string) : bool :=
  (String.length p <=? String.length s)%nat
  && String.eqb (drop_chars (String.length s - String.length p) s) p.

(** [str(n)] of a Python integer. *)
Definition str_of_Z (n : Z) : string := NilZero.string_of_int (Z.to_int n).
Definition str_of_nat (n : nat) : string := NilZero.string_of_uint (Nat.to_uint n).

(** *** The pattern [@([\w-]+)] *)

(** The ASCII characters of the class [[\w-]]: a letter, a digit, an
    underscore or a hyphen. *)
Definition word_char (c : ascii) : bool :=
  is_alnum c || Ascii.eqb c "_"%char.
Definition login_char (c : ascii) : bool :=
  word_char c || Ascii.eqb c "-"%char.

(** The greedy [[\w-]*] at the head of an ASCII text [s], and what
    follows it. *)
Fixpoint span_ascii (s : string) : string * string :=
  match s with
  | "" => ("", "")
  | String c s' =>
      if login_char c
      then let '(w, rest) := span_ascii s' in (String c w, rest)
      else ("", s)
  end.

(** [pattern.findall(s)] for the pattern [@([\w-]+)], given the function
    [span] that splits a text into its longest prefix of characters of
    [[\w-]] and the rest.  The matches are found from left to right and
    do not overlap; each contributes its group 1.  A match attempt that
    fails at a position moves the scan on; the scan goes byte by byte,
    which finds the same [@] as going character by character.  It consumes
    at least one byte per step, so [String.length s] steps suffice (see
    [findall_nil], [findall_cons]). *)
Fixpoint findall_steps (span : string → string * string) (steps : nat)
    (s : string) : list string :=
  match steps with
  | O => []
  | S steps' =>
      match s with
      | "" => []
      | String c s' =>
          if Ascii.eqb c "@"%char then
            match span s' with
            | ("", _) => findall_steps span steps' s'
            | (w, rest) => w :: findall_steps span steps' rest
            end
          else findall_steps span steps' s'
      end
  end.

Definition findall_with (span : string → string * string) (s : string)
    : list string :=
  findall_steps span (String.length s) s.

Definition no_at : string → bool :=
  all_chars (λ c, negb (Ascii.eqb c "@"%char)).

(** A non-empty string of ASCII letters, digits, underscores and hyphens,
    as the logins of the hosting service are; the group [[\w-]+] of the
    pattern matches it entirely. *)
Definition login_like (s : string) : bool :=
  negb (String.eqb s "") && all_chars login_char s.

(** What the script takes from Python's Unicode tables.  [str_lower] is
    [str.lower].  [span_login] is how the [re] module matches the class
    [[\w-]] of the pattern of line 179: [span_login s] is the longest
    prefix of [s] made of word characters (of Unicode) and hyphens, and the
    rest of [s].  Of the two the proofs use that the parts of [span_login]
    make up the text, and that a run of ASCII letters, digits, underscores
    and hyphens that ends at a newline is matched whole. *)
Record Unicode := {
  str_lower : string → string;
  span_login : string → string * string;
  span_login_splits : ∀ s, (span_login s).1 +:+ (span_login s).2 = s;
  span_login_ascii : ∀ w s,
    all_chars login_char w = true →
    span_login (w +:+ String "010"%char s) = (w, String "010"%char s);
}.

End Text.

Import Text.

Example lower_ex : lower_ascii "Alice B-9_z" = "alice b-9_z".
Proof. reflexivity. Qed.

Example findall_ex :
  findall_with span_ascii
    ("- [A](https://h/c?author=a-b) - @a-b" +:+ nl +:+ "x@ @@c_d! e@f")
  = ["a-b"; "c_d"; "f"].
Proof. reflexivity. Qed.

Example str_of_Z_ex : str_of_Z 100 = "100" ∧ str_of_Z 0 = "0" ∧ str_of_nat 12 = "12".
Proof. repeat split. Qed.

(** ** Ordered dictionaries

    A Python [dict] iterates in insertion order; assigning to a key that is
    present keeps the key's position. *)

Module Dict.
Section Ops.
Context {K V : Type} `{EqDecision K}.

Fixpoint get_item (k : K) (d : list (K * V)) : option V :=
  match d with
  | [] => None
  | (k', v) :: d' => if decide (k = k') then Some v else get_item k d'
  end.

(** [d[k] = v] *)
Fixpoint set_item (k : K) (v : V) (d : list (K * V)) : list (K * V) :=
  match d with
  | [] => [(k, v)]
  | (k', v') :: d' =>
      if decide (k = k') then (k, v) :: d' else (k', v') :: set_item k v d'
  end.

Definition keys (d : list (K * V)) : list K := d.*1.
End Ops.
End Dict.

Import Dict.

(** ** What the hosting API returns *)

Record User := { login : string; name : option string }.
Record Commit := { committer : option User; author : option User }.
Record Review := { user : option User }.
Record PullRequest := {
  number : Z;
  title : string;
  labels : list string;         (* [label.name for label in pull.labels] *)
  merged : bool;
  merge_commit : Commit;        (* [repo.get_commit(pull.merge_commit_sha)] *)
  get_reviews : list Review;
  issue_user : User;            (* [pull.as_issue().user] *)
}.

(** An entry of a section: [{'summary': ..., "repo": ...}]. *)
Record Info := { summary : string; repo : string }.

(** ** The module-level collections *)

Record state := State {
  users : gmap string string;
  authors : gset string;
  committers : gset string;
  docs_authors : gset string;
  docs_committers : gset string;
  reviewers : gset string;
  docs_reviewers : gset string;
  highlights : list (string * list (Z * Info));
  other_pull_requests : list (Z * Info);
  (** ghost: the logins for which [add_to_users] went past its early
      [return], oldest first *)
  resolved : list string;
}.

Definition initial_highlights : list (string * list (Z * Info)) :=
  [ ("Highlights", []); ("New Features", []); ("Improvements", []);
    ("Performance", []); ("Bug Fixes", []); ("API Changes", []);
    ("Deprecations", []); ("Build Tools", []); ("Documentation", []) ].

Definition initial_state : state :=
  State ∅ ∅ ∅ ∅ ∅ ∅ ∅ initial_highlights [] [].

Definition label_to_section : list (string * string) :=
  [ ("bug", "Bug Fixes");
    ("bugfix", "Bug Fixes");
    ("feature", "New Features");
    ("api", "API Changes");
    ("highlight", "Highlights");
    ("performance", "Performance");
    ("enhancement", "Improvements");
    ("deprecation", "Deprecations");
    ("dependencies", "Build Tools");
    ("documentation", "Documentation") ].

Definition with_users (f : gmap string string → gmap string string)
    (log : list string) (st : state) : state :=
  State (f (users st)) (authors st) (committers st) (docs_authors st)
    (docs_committers st) (reviewers st) (docs_reviewers st) (highlights st)
    (other_pull_requests st) (resolved st ++ log).
Definition with_authors (f : gset string → gset string) (st : state) : state :=
  State (users st) (f (authors st)) (committers st) (docs_authors st)
    (docs_committers st) (reviewers st) (docs_reviewers st) (highlights st)
    (other_pull_requests st) (resolved st).
Definition with_committers (f : gset string → gset string) (st : state) : state :=
  State (users st) (authors st) (f (committers st)) (docs_authors st)
    (docs_committers st) (reviewers st) (docs_reviewers st) (highlights st)
    (other_pull_requests st) (resolved st).
Definition with_docs_authors (f : gset string → gset string) (st : state) : state :=
  State (users st) (authors st) (committers st) (f (docs_authors st))
    (docs_committers st) (reviewers st) (docs_reviewers st) (highlights st)
    (other_pull_requests st) (resolved st).
Definition with_docs_committers (f : gset string → gset string) (st : state) : state :=
  State (users st) (authors st) (committers st) (docs_authors st)
    (f (docs_committers st)) (reviewers st) (docs_reviewers st) (highlights st)
    (other_pull_requests st) (resolved st).
Definition with_reviewers (f : gset string → gset string) (st : state) : state :=
  State (users st) (authors st) (committers st) (docs_authors st)
    (docs_committers st) (f (reviewers st)) (docs_reviewers st) (highlights st)
    (other_pull_requests st) (resolved st).
Definition with_docs_reviewers (f : gset string → gset string) (st : state) : state :=
  State (users st) (authors st) (committers st) (docs_authors st)
    (docs_committers st) (reviewers st) (f (docs_reviewers st)) (highlights st)
    (other_pull_requests st) (resolved st).
Definition with_highlights
    (f : list (string * list (Z * Info)) → list (string * list (Z * Info)))
    (st : state) : state :=
  State (users st) (authors st) (committers st) (docs_authors st)
    (docs_committers st) (reviewers st) (docs_reviewers st) (f (highlights st))
    (other_pull_requests st) (resolved st).
Definition with_other_pull_requests
    (f : list (Z * Info) → list (Z * Info)) (st : state) : state :=
  State (users st) (authors st) (committers st) (docs_authors st)
    (docs_committers st) (reviewers st) (docs_reviewers st) (highlights st)
    (f (other_pull_requests st)) (resolved st).

(** ** Exceptions and the monad of the script *)

Inductive exn :=
  | AssertionError
  | KeyError (key : string)
  | OSError
  | UnicodeDecodeError.

Inductive outcome (A : Type) :=
  | Returned (a : A)
  | Raised (e : exn).
Arguments Returned {A} a.
Arguments Raised {A} e.

Definition outcome_bind {A B} (f : A → outcome B) (o : outcome A) : outcome B :=
  match o with
  | Returned a => f a
  | Raised e => Raised e
  end.

#[global] Instance outcome_ret : MRet outcome := λ A, Returned.
#[global] Instance outcome_mbind : MBind outcome := λ A B, outcome_bind.

Definition M (A : Type) : Type := state → outcome A * state.

Definition M_ret {A} (a : A) : M A := λ st, (Returned a, st).
Definition M_bind {A B} (f : A → M B) (m : M A) : M B :=
  λ st, match m st with
        | (Returned a, st') => f a st'
        | (Raised e, st') => (Raised e, st')
        end.

#[global] Instance M_mret : MRet M := λ A, M_ret.
#[global] Instance M_mbind : MBind M := λ A B, M_bind.

Definition raise {A} (e : exn) : M A := λ st, (Raised e, st).
Definition gets {A} (f : state → A) : M A := λ st, (Returned (f st), st).
Definition modify (f : state → state) : M unit := λ st, (Returned (), f st).

(** [assert b] *)
Definition assert_ (b : bool) : M unit :=
  if b then mret () else raise AssertionError.

(** [if x is not None: body(x)] *)
Definition when_not_None {A} (x : option A) (body : A → M unit) : M unit :=
  match x with
  | Some a => body a
  | None => mret ()
  end.

(** [for x in l: body(x)] *)
Fixpoint for_each {A} (l : list A) (body : A → M unit) : M unit :=
  match l with
  | [] => mret ()
  | x :: l' => body x ;; for_each l' body
  end.

(** A [for] loop that updates one local variable. *)
Fixpoint for_each_with {A B} (l : list A) (acc : B) (body : B → A → M B) : M B :=
  match l with
  | [] => mret acc
  | x :: l' => acc' ← body acc x; for_each_with l' acc' body
  end.

(** ** The script *)

Section Release.

Variable unicode : Unicode.

(** [s.lower()] *)
Definition lower (s : string) : string := str_lower unicode s.

(** [user_name_pattern.findall(s)] *)
Definition findall (s : string) : list string :=
  findall_with (span_login unicode) s.

(** [correction_dict] is what the start of the script loads from the
    correction file.  [BOT_LIST], [GH], [GH_USER] and [GH_REPO] are
    constants imported from [release_utils]. *)
Variable correction_dict : gmap string string.
Variable BOT_LIST : gset string.
Variables GH GH_USER GH_REPO : string.

(** *** The user directory *)

(** Lines 66-75; the result is the dictionary that the call leaves in
    [users]. *)
Definition add_to_users (users : gmap string string) (new_user : User)
    : gmap string string :=
  match users !! login new_user with
  | Some _ =>
      (* reduce obsolete requests to GitHub API *)
      users
  | None =>
      match correction_dict !! login new_user with
      | Some corrected_name => <[login new_user := corrected_name]> users
      | None =>
          match name new_user with
          | None => <[login new_user := login new_user]> users
          | Some profile_name => <[login new_user := profile_name]> users
          end
      end
  end.

(** ghost: what a call of [add_to_users] adds to the log [resolved] *)
Definition resolutions (users : gmap string string) (new_user : User)
    : list string :=
  match users !! login new_user with
  | Some _ => []
  | None => [login new_user]
  end.

(** [add_to_users(users, new_user)] on the global [users] *)
Definition call_add_to_users (new_user : User) : M unit :=
  modify (λ st, with_users (λ u, add_to_users u new_user)
                  (resolutions (users st) new_user) st).

(** *** Sections *)

(** [highlights[section][number] = info] *)
Definition highlights_set (section : string) (number : Z) (info : Info)
    : M unit :=
  hl ← gets highlights;
  match get_item section hl with
  | None => raise (KeyError section)
  | Some d =>
      modify (with_highlights (set_item section (set_item number info d)))
  end.

(** [{label.name.lower() for label in pull.labels}] *)
Definition pr_lables (pull : PullRequest) : gset string :=
  list_to_set (lower <$> labels pull).

(** *** The loop over the pull requests of the main repository *)

(** Lines 136-138: the body of the loop over [label_to_section.items()],
    from and to the value of [assigned_to_section]. *)
Definition assign_section (pull : PullRequest) (assigned : bool)
    (item : string * string) : M bool :=
  let '(label_name, section) := item in
  if decide (label_name ∈ pr_lables pull) then
    highlights_set section (number pull)
      {| summary := title pull; repo := "napari" |};;
    mret true
  else mret assigned.

(** Lines 133-138; the result is the final [assigned_to_section]. *)
Definition assign_sections (pull : PullRequest) : M bool :=
  for_each_with label_to_section false (assign_section pull).

Definition process_pull (pull : PullRequest) : M unit :=
  assert_ (merged pull);;
  let commit := merge_commit pull in
  when_not_None (committer commit) (λ u,
    call_add_to_users u;;
    modify (with_committers (λ s, s ∪ {[login u]})));;
  when_not_None (author commit) (λ u,
    call_add_to_users u;;
    modify (with_authors (λ s, s ∪ {[login u]})));;
  for_each (get_reviews pull) (λ review,
    when_not_None (user review) (λ u,
      call_add_to_users u;;
      modify (with_reviewers (λ s, s ∪ {[login u]}))));;
  assigned_to_section ← assign_sections pull;
  if assigned_to_section : bool then mret ()
  else modify (with_other_pull_requests
                 (set_item (number pull)
                    {| summary := title pull; repo := "napari" |})).

(** *** The loop over the pull requests of the docs repository *)

Definition process_docs_pull (pull : PullRequest) : M unit :=
  assert_ (merged pull);;
  call_add_to_users (issue_user pull);;
  modify (with_docs_authors (λ s, s ∪ {[login (issue_user pull)]}));;
  for_each (get_reviews pull) (λ review,
    when_not_None (user review) (λ u,
      call_add_to_users u;;
      modify (with_docs_reviewers (λ s, s ∪ {[login u]}))));;
  if decide ("maintenance" ∈ pr_lables pull) then
    modify (with_other_pull_requests
              (set_item (number pull)
                 {| summary := title pull; repo := "docs" |}))
  else
    highlights_set "Documentation" (number pull)
      {| summary := title pull; repo := "docs" |}.

(** Lines 169-176: the catch-all section joins [highlights], then the
    bots are removed. *)
Definition finish_collection : M unit :=
  other ← gets other_pull_requests;
  modify (with_highlights (set_item "Other Pull Requests" other));;
  modify (with_committers (λ s, s ∖ BOT_LIST));;
  modify (with_authors (λ s, s ∖ BOT_LIST));;
  modify (with_docs_committers (λ s, s ∖ BOT_LIST));;
  modify (with_docs_authors (λ s, s ∖ BOT_LIST)).

(** Lines 113-176. [pulls] and [docs_pulls] are what the two calls of
    [iter_pull_request] yield. *)
Definition collect (pulls docs_pulls : list PullRequest) : M unit :=
  for_each pulls process_pull;;
  for_each docs_pulls process_docs_pull;;
  finish_collection.

(** *** Earlier reports *)

Definition res_file_name (milestone : string) : string :=
  "release_" +:+ replace "." "_" milestone +:+ ".md".

(** A name matches [prefix*suffix]. *)
Definition fnmatch_star (prefix suffix name : string) : bool :=
  (String.length prefix + String.length suffix <=? String.length name)%nat
  && starts_with prefix name && ends_with suffix name.

(** [target_directory.glob("release_*.md")], a directory being the list of
    its files, each a name and a content. *)
Definition glob_reports (directory : list (string * string))
    : list (string * string) :=
  filter (λ f, fnmatch_star "release_" ".md" f.1 = true) directory.

(** The reports the loop of lines 188-192 reads: all but the file that
    this run writes (which [open(..., "w")] has just created).  Here a
    directory lists the content of each file, as [f.read()] returns it;
    the files as they are met, which may fail to open or to decode, are
    those of [TargetDirectory] below. *)
Definition prior_reports (milestone : string)
    (directory : list (string * string)) : list (string * string) :=
  filter (λ f, f.1 ≠ res_file_name milestone) (glob_reports directory).

(** [old_contributors] after lines 181-192, when every file is read. *)
Definition old_contributors (milestone : string)
    (target_directory : option (list (string * string))) : gset string :=
  match target_directory with
  | None => ∅
  | Some directory =>
      foldl (λ old f, old ∪ list_to_set (findall f.2)) ∅
        (prior_reports milestone directory)
  end.

(** *** The report *)

(** [print(s, file=file_handle)] writes [s] and a newline. *)
Definition print (s : string) : string := s +:+ nl.

Definition join (l : list string) : string := foldr String.append "" l.

(** [for x in l], with a body that may raise. *)
Fixpoint traverse {A B} (f : A → outcome B) (l : list A) : outcome (list B) :=
  match l with
  | [] => mret []
  | x :: l' => y ← f x; ys ← traverse f l'; mret (y :: ys)
  end.

(** Lines 196-216. *)
Definition header (milestone : string) : string :=
  print ("# napari " +:+ milestone)
  +:+ print (nl
        +:+ "We're happy to announce the release of napari " +:+ milestone +:+ "!" +:+ nl
        +:+ "napari is a fast, interactive, multi-dimensional image viewer for Python." +:+ nl
        +:+ "It's designed for browsing, annotating, and analyzing large multi-dimensional" +:+ nl
        +:+ "images. It's built on top of Qt (for the GUI), vispy (for performant GPU-based" +:+ nl
        +:+ "rendering), and the scientific Python stack (numpy, scipy)." +:+ nl)
  +:+ print (nl
        +:+ "For more information, examples, and documentation, please visit our website:" +:+ nl
        +:+ "https://github.com/napari/napari" +:+ nl).

(** Line 222. *)
Definition pull_request_line (number : Z) (pull_request_info : Info) : string :=
  let repo_str := repo pull_request_info in
  "- " +:+ summary pull_request_info +:+ " ([napari/" +:+ repo_str +:+ "/#"
  +:+ str_of_Z number +:+ "](https://" +:+ GH +:+ "/" +:+ GH_USER +:+ "/"
  +:+ repo_str +:+ "/pull/" +:+ str_of_Z number +:+ "))".

(** Lines 219-223, for one item of [highlights]. *)
Definition section_block (item : string * list (Z * Info)) : string :=
  print ("## " +:+ item.1 +:+ nl)
  +:+ join ((λ entry, print (pull_request_line entry.1 entry.2)) <$> item.2)
  +:+ print "".

(** [users[c]] *)
Definition users_item (users : gmap string string) (c : string) : outcome string :=
  match users !! c with
  | Some display_name => Returned display_name
  | None => Raised (KeyError c)
  end.

(** [sorted]: Python's sort is stable and compares keys with [<] only.
    Insertion from the right end, each element going in front of the
    first one whose key is not smaller, is the stable sort. *)
Fixpoint insert_keyed (x : string * string) (l : list (string * string))
    : list (string * string) :=
  match l with
  | [] => [x]
  | y :: l' =>
      if String.ltb y.1 x.1 then y :: insert_keyed x l' else x :: l
  end.

Definition sort_keyed (l : list (string * string)) : list (string * string) :=
  foldr insert_keyed [] l.

(** [sorted(contributor_set, key=lambda x: users[x].lower())]; the keys
    are computed for all elements before any comparison. *)
Definition sorted_contributors (users : gmap string string)
    (contributor_set : gset string) : outcome (list string) :=
  keyed ← traverse (λ x, display_name ← users_item users x;
                         mret (lower display_name, x))
            (elements contributor_set);
  mret (sort_keyed keyed).*2.

Definition commit_link (c : string) : string :=
  "https://" +:+ GH +:+ "/" +:+ GH_USER +:+ "/" +:+ GH_REPO
  +:+ "/commits?author=" +:+ c.

(** Lines 247-248 and 260-261. *)
Definition contributor_line (users : gmap string string) (c : string)
    : outcome string :=
  display_name ← users_item users c;
  mret ("- [" +:+ display_name +:+ "](" +:+ commit_link c +:+ ") - @" +:+ c).

(** The bullets of one contributor set, one per line, in the order they
    are written. *)
Definition contributor_lines (users : gmap string string)
    (contributor_set : gset string) : outcome (list string) :=
  l ← sorted_contributors users contributor_set;
  traverse (contributor_line users) l.

(** Lines 236-249, for one item of [contributors]. *)
Definition contributors_block (users : gmap string string)
    (item : string * gset string) : outcome string :=
  lines ← contributor_lines users item.2;
  mret (print ""
        +:+ print ("## " +:+ str_of_nat (size item.2) +:+ " " +:+ item.1
                   +:+ " added to this release (alphabetical)")
        +:+ print ""
        +:+ join (print <$> lines)
        +:+ print "").

(** Lines 228-231. *)
Definition contributors (st : state) : list (string * gset string) :=
  [ ("authors", authors st);
    ("reviewers", reviewers st);
    ("docs authors", docs_authors st);
    ("docs reviewers", docs_reviewers st) ].

(** Line 251. *)
Definition new_contributors (st : state) (old_contributors : gset string)
    : gset string :=
  (authors st ∪ docs_authors st) ∖ old_contributors.

(** Line 254: a set is true when it is not empty. *)
Definition new_contributors_shown (old_contributors new_contributors : gset string)
    : bool :=
  bool_decide (old_contributors ≠ ∅) && bool_decide (new_contributors ≠ ∅).

(** Lines 254-261; the empty text when the section is left out. *)
Definition new_contributors_block (users : gmap string string)
    (old_contributors new_contributors : gset string) : outcome string :=
  if new_contributors_shown old_contributors new_contributors then
    lines ← contributor_lines users new_contributors;
    mret (print "## New Contributors"
          +:+ print ""
          +:+ print ("There are " +:+ str_of_nat (size new_contributors)
                     +:+ " new contributors for this release:")
          +:+ print ""
          +:+ join (print <$> lines))
  else mret "".

(** Lines 196-261: the text written to [file_handle]. *)
Definition render (milestone : string) (old_contributors : gset string)
    (st : state) : outcome string :=
  blocks ← traverse (contributors_block (users st)) (contributors st);
  new_block ← new_contributors_block (users st) old_contributors
                (new_contributors st old_contributors);
  mret (header milestone
        +:+ join (section_block <$> highlights st)
        +:+ join blocks
        +:+ new_block).

(** *** The whole run *)

(** Where the report goes: [sys.stdout] ([None]) or the named file of the
    target directory. *)
Record Report := { file : option string; text : string }.

(** The run in which every file operation succeeds ([run_files] below is
    the run with the file operations as they are met). *)
Definition main (milestone : string)
    (target_directory : option (list (string * string)))
    (pulls docs_pulls : list PullRequest) : M Report :=
  collect pulls docs_pulls;;
  st ← gets id;
  match render milestone (old_contributors milestone target_directory) st with
  | Returned text =>
      mret {| file := (λ _, res_file_name milestone) <$> target_directory;
              text := text |}
  | Raised e => raise e
  end.

Definition run (milestone : string)
    (target_directory : option (list (string * string)))
    (pulls docs_pulls : list PullRequest) : outcome Report * state :=
  main milestone target_directory pulls docs_pulls initial_state.

(** *** The run with its file operations *)

(** The target directory as the script meets it.  [open_report] is the
    exception that [open(target_directory / res_file_name, "w")] of line
    187 raises, if it raises one.  [listing] has the files of the
    directory after that line, in the order of the glob, each with its name
    and with what [open(file_path)] and [f.read()] of lines 191-192 give
    for it: the content, or the exception raised. *)
Record TargetDirectory := {
  open_report : option exn;
  listing : list (string * outcome string);
}.

(** Lines 188-190: the file is a result of the glob and is not the report
    of this run. *)
Definition is_prior_report (milestone name : string) : bool :=
  fnmatch_star "release_" ".md" name
  && negb (String.eqb name (res_file_name milestone)).

(** Lines 188-192.  A file that is skipped is not opened; a file that
    cannot be read ends the run. *)
Fixpoint scan_reports (milestone : string)
    (files : list (string * outcome string)) (old_contributors : gset string)
    : outcome (gset string) :=
  match files with
  | [] => Returned old_contributors
  | (name, read) :: files' =>
      if is_prior_report milestone name then
        match read with
        | Returned content =>
            scan_reports milestone files'
              (old_contributors ∪ list_to_set (findall content))
        | Raised e => Raised e
        end
      else scan_reports milestone files' old_contributors
  end.

(** Lines 181-192. *)
Definition read_old_contributors (milestone : string)
    (target_directory : option TargetDirectory) : outcome (gset string) :=
  match target_directory with
  | None => Returned ∅
  | Some directory =>
      match open_report directory with
      | Some e => Raised e
      | None => scan_reports milestone (listing directory) ∅
      end
  end.

Definition main_files (milestone : string)
    (target_directory : option TargetDirectory)
    (pulls docs_pulls : list PullRequest) : M Report :=
  collect pulls docs_pulls;;
  match read_old_contributors milestone target_directory with
  | Returned old_contributors =>
      st ← gets id;
      match render milestone old_contributors st with
      | Returned text =>
          mret {| file := (λ _, res_file_name milestone) <$> target_directory;
                  text := text |}
      | Raised e => raise e
      end
  | Raised e => raise e
  end.

Definition run_files (milestone : string)
    (target_directory : option TargetDirectory)
    (pulls docs_pulls : list PullRequest) : outcome Report * state :=
  main_files milestone target_directory pulls docs_pulls initial_state.

(** A directory in which every file operation succeeds. *)
Definition readable (directory : list (string * string)) : TargetDirectory :=
  {| open_report := None;
     listing := (λ f, (f.1, Returned f.2)) <$> directory |}.

(** ** Reasoning about the monad *)

(** [m] keeps the property [I] of the collections, whether it returns or
    raises. *)
Definition preserves {A} (I : state → Prop) (m : M A) : Prop :=
  ∀ st, I st → I (m st).2.

Lemma preserves_ret {A} I (a : A) : preserves I (mret a).
Proof. by intros st. Qed.

Lemma preserves_raise {A} I e : preserves I (raise e : M A).
Proof. by intros st. Qed.

Lemma preserves_gets {A} I (f : state → A) : preserves I (gets f).
Proof. by intros st. Qed.

Lemma preserves_modify I f :
  (∀ st, I st → I (f st)) → preserves I (modify f).
Proof. intros Hf st. apply Hf. Qed.

Lemma preserves_bind {A B} I (m : M A) (f : A → M B) :
  preserves I m → (∀ a, preserves I (f a)) → preserves I (m ≫= f).
Proof.
  intros Hm Hf st HI. specialize (Hm st HI).
  unfold mbind, M_mbind, M_bind. destruct (m st) as [[a|e] st']; simpl in *.
  - by apply Hf.
  - done.
Qed.

Lemma preserves_bind_assoc {A B C} I (m : M A) (f : A → M B) (g : B → M C) :
  preserves I ((m ≫= f) ≫= g) → preserves I (m ≫= (λ a, f a ≫= g)).
Proof.
  intros H st HI. specialize (H st HI). revert H.
  unfold mbind, M_mbind, M_bind. by destruct (m st) as [[a|e] st'].
Qed.

Lemma preserves_assert I b : preserves I (assert_ b).
Proof. destruct b; [apply preserves_ret | apply preserves_raise]. Qed.

Lemma preserves_when {A} I (x : option A) body :
  (∀ a, preserves I (body a)) → preserves I (when_not_None x body).
Proof. destruct x; simpl; [done | intros; apply preserves_ret]. Qed.

Lemma preserves_for_each {A} I (l : list A) body :
  (∀ a, preserves I (body a)) → preserves I (for_each l body).
Proof.
  intros Hb. induction l as [|x l IH]; simpl.
  - apply preserves_ret.
  - apply preserves_bind; auto.
Qed.

Lemma preserves_for_each_with {A B} I (l : list A) (acc : B) body :
  (∀ b a, preserves I (body b a)) → preserves I (for_each_with l acc body).
Proof.
  intros Hb. revert acc. induction l as [|x l IH]; intros acc; simpl.
  - apply preserves_ret.
  - apply preserves_bind; auto.
Qed.

Lemma preserves_highlights_set I section number info :
  (∀ k v st, I st → I (with_highlights (set_item k v) st)) →
  preserves I (highlights_set section number info).
Proof.
  intros Hf. unfold highlights_set. apply preserves_bind.
  - apply preserves_gets.
  - intros hl. destruct (get_item section hl).
    + apply preserves_modify. intros st. apply Hf.
    + apply preserves_raise.
Qed.

Lemma preserves_for_each_in {A} I (l : list A) body :
  (∀ a, a ∈ l → preserves I (body a)) → preserves I (for_each l body).
Proof.
  induction l as [|x l IH]; intros Hb; simpl.
  - apply preserves_ret.
  - apply preserves_bind; [apply Hb; left | intros _; apply IH].
    intros a Ha. apply Hb. by right.
Qed.

(** An invariant of the whole collection phase, for pull requests with
    [P]: it is enough that recording a user in each role set, filing a
    pull request and removing the bots keep it. *)
Record step_invariant (P : PullRequest → Prop) (I : state → Prop) : Prop := {
  inv_add_committer u :
    preserves I (call_add_to_users u;;
                 modify (with_committers (λ s, s ∪ {[login u]})));
  inv_add_author u :
    preserves I (call_add_to_users u;;
                 modify (with_authors (λ s, s ∪ {[login u]})));
  inv_add_reviewer u :
    preserves I (call_add_to_users u;;
                 modify (with_reviewers (λ s, s ∪ {[login u]})));
  inv_add_docs_author u :
    preserves I (call_add_to_users u;;
                 modify (with_docs_authors (λ s, s ∪ {[login u]})));
  inv_add_docs_reviewer u :
    preserves I (call_add_to_users u;;
                 modify (with_docs_reviewers (λ s, s ∪ {[login u]})));
  inv_assign pull : P pull → preserves I (assign_sections pull);
  inv_other pull r :
    P pull → r = "napari" ∨ r = "docs" →
    preserves I (modify (with_other_pull_requests
                   (set_item (number pull)
                      {| summary := title pull; repo := r |})));
  inv_documentation pull :
    P pull →
    preserves I (highlights_set "Documentation" (number pull)
                   {| summary := title pull; repo := "docs" |});
  inv_finish : preserves I finish_collection;
}.

Lemma preserves_process_pull P I pull :
  step_invariant P I → P pull → preserves I (process_pull pull).
Proof.
  intros HI HP. unfold process_pull.
  apply preserves_bind; [apply preserves_assert | intros _].
  apply preserves_bind;
    [apply preserves_when; intros u; apply (inv_add_committer _ _ HI) | intros _].
  apply preserves_bind;
    [apply preserves_when; intros u; apply (inv_add_author _ _ HI) | intros _].
  apply preserves_bind.
  { apply preserves_for_each. intros review.
    apply preserves_when. intros u. apply (inv_add_reviewer _ _ HI). }
  intros _. apply preserves_bind; [by apply (inv_assign _ _ HI) | ].
  intros [|]; [apply preserves_ret | apply (inv_other _ _ HI); auto].
Qed.

Lemma preserves_process_docs_pull P I pull :
  step_invariant P I → P pull → preserves I (process_docs_pull pull).
Proof.
  intros HI HP. unfold process_docs_pull.
  apply preserves_bind; [apply preserves_assert | intros _].
  apply preserves_bind_assoc.
  apply preserves_bind; [apply (inv_add_docs_author _ _ HI) | intros _].
  apply preserves_bind.
  { apply preserves_for_each. intros review.
    apply preserves_when. intros u. apply (inv_add_docs_reviewer _ _ HI). }
  intros _.
  case_decide; [apply (inv_other _ _ HI); auto | by apply (inv_documentation _ _ HI)].
Qed.

Lemma preserves_collect P I pulls docs_pulls :
  step_invariant P I → Forall P pulls → Forall P docs_pulls →
  preserves I (collect pulls docs_pulls).
Proof.
  intros HI Hpulls Hdocs. unfold collect.
  rewrite Forall_forall in Hpulls. rewrite Forall_forall in Hdocs.
  apply preserves_bind.
  { apply preserves_for_each_in. intros pull Hin.
    apply (preserves_process_pull P); auto. }
  intros _. apply preserves_bind.
  { apply preserves_for_each_in. intros pull Hin.
    apply (preserves_process_docs_pull P); auto. }
  intros _. apply (inv_finish _ _ HI).
Qed.

(** Rendering reads the collections and changes none of them. *)
Lemma main_state milestone target_directory pulls docs_pulls st :
  (main milestone target_directory pulls docs_pulls st).2
  = (collect pulls docs_pulls st).2.
Proof.
  unfold main, mbind, M_mbind, M_bind.
  destruct (collect pulls docs_pulls st) as [[[]|e] st']; simpl; [|done].
  by destruct (render _ _ st').
Qed.

Lemma preserves_main P I milestone target_directory pulls docs_pulls :
  step_invariant P I → Forall P pulls → Forall P docs_pulls →
  preserves I (main milestone target_directory pulls docs_pulls).
Proof.
  intros HI Hpulls Hdocs st Hst. rewrite main_state.
  by apply (preserves_collect P).
Qed.

Lemma Forall_any (l : list PullRequest) : Forall (λ _, True) l.
Proof. by apply Forall_forall. Qed.

(** An invariant that does not mention the role sets is kept when
    [add_to_users] and the updates of the sections keep it. *)
Lemma step_invariant_intro (P : PullRequest → Prop) (I : state → Prop) :
  (∀ u, preserves I (call_add_to_users u)) →
  (∀ f st, I st → I (with_committers f st)) →
  (∀ f st, I st → I (with_authors f st)) →
  (∀ f st, I st → I (with_reviewers f st)) →
  (∀ f st, I st → I (with_docs_authors f st)) →
  (∀ f st, I st → I (with_docs_reviewers f st)) →
  (∀ f st, I st → I (with_docs_committers f st)) →
  (∀ pull, P pull → preserves I (assign_sections pull)) →
  (∀ pull r, P pull → r = "napari" ∨ r = "docs" →
             preserves I (modify (with_other_pull_requests
                (set_item (number pull) {| summary := title pull; repo := r |})))) →
  (∀ pull, P pull → preserves I (highlights_set "Documentation" (number pull)
                {| summary := title pull; repo := "docs" |})) →
  (∀ st, I st → I (with_highlights
                     (set_item "Other Pull Requests" (other_pull_requests st)) st)) →
  step_invariant P I.
Proof.
  intros Hu Hc Ha Hr Hda Hdr Hdc Has Ho Hd Hf.
  split; try done;
    try (intros u; apply preserves_bind; [apply Hu | intros _];
         apply preserves_modify; auto).
  unfold finish_collection. intros st Hst. simpl.
  apply Hda, Hdc, Ha, Hc, Hf, Hst.
Qed.

(** ** The user directory *)

(** What lines 70-75 store for a user. *)
Definition stored_name (new_user : User) : string :=
  match correction_dict !! login new_user, name new_user with
  | Some corrected_name, _ => corrected_name
  | None, Some profile_name => profile_name
  | None, None => login new_user
  end.

Lemma add_to_users_unfold users new_user :
  add_to_users users new_user
  = match users !! login new_user with
    | Some _ => users
    | None => <[login new_user := stored_name new_user]> users
    end.
Proof.
  unfold add_to_users, stored_name.
  by destruct (users !! login new_user), (correction_dict !! login new_user),
       (name new_user).
Qed.

Lemma add_to_users_known users new_user :
  is_Some (users !! login new_user) →
  add_to_users users new_user = users ∧ resolutions users new_user = [].
Proof.
  intros [n Hn]. rewrite add_to_users_unfold. unfold resolutions. by rewrite Hn.
Qed.

Lemma add_to_users_grows users new_user : users ⊆ add_to_users users new_user.
Proof.
  rewrite add_to_users_unfold. destruct (users !! login new_user) eqn:E; [done|].
  by apply insert_subseteq.
Qed.

Lemma add_to_users_dom users new_user :
  login new_user ∈ dom (add_to_users users new_user).
Proof.
  rewrite add_to_users_unfold. destruct (users !! login new_user) eqn:E.
  - apply elem_of_dom. eauto.
  - rewrite dom_insert_L. set_solver.
Qed.

(** Every login of [users] has been resolved exactly once, and no other
    login has been resolved. *)
Definition resolved_once (st : state) : Prop :=
  ∀ l, length (filter (λ x, x = l) (resolved st))
       = if decide (l ∈ dom (users st)) then 1 else 0.

Lemma resolved_once_add_to_users u : preserves resolved_once (call_add_to_users u).
Proof.
  intros st Hst l. specialize (Hst l). simpl.
  rewrite add_to_users_unfold. unfold resolutions.
  destruct (users st !! login u) eqn:E.
  - by rewrite app_nil_r.
  - rewrite filter_app, length_app, Hst, dom_insert_L.
    apply not_elem_of_dom in E.
    destruct (decide (l = login u)) as [->|Hne].
    + rewrite filter_cons_True by done. simpl.
      rewrite decide_False by done. rewrite decide_True by set_solver. done.
    + rewrite filter_cons_False by done. simpl.
      destruct (decide (l ∈ dom (users st))) as [Hin|Hnin].
      * rewrite decide_True; [done | apply elem_of_union; by right].
      * rewrite decide_False; [done|].
        rewrite elem_of_union, elem_of_singleton. by intros [?|?].
Qed.

Lemma resolved_once_invariant : step_invariant (λ _, True) resolved_once.
Proof.
  apply step_invariant_intro; try done.
  - apply resolved_once_add_to_users.
  - intros pull _. apply preserves_for_each_with. intros b [label_name section].
    simpl. case_decide; [|apply preserves_ret].
    apply preserves_bind; [|intros; apply preserves_ret].
    by apply preserves_highlights_set.
  - intros pull r _ _. by apply preserves_modify.
  - intros pull _. by apply preserves_highlights_set.
Qed.

(** C7. A user who is not yet in the directory gets, as display name, the
    corrected name when the login is a key of the correction table;
    otherwise the profile's name when that is not [None]; otherwise the
    login. *)
Theorem add_to_users_name_priority (users : gmap string string) (new_user : User) :
  users !! login new_user = None →
  add_to_users users new_user !! login new_user
  = Some match correction_dict !! login new_user, name new_user with
         | Some corrected_name, _ => corrected_name
         | None, Some profile_name => profile_name
         | None, None => login new_user
         end.
Proof.
  intros Hnew. by rewrite add_to_users_unfold, Hnew, lookup_insert_eq.
Qed.

(** C4. A call of [add_to_users] for a login that is a key of [users]
    changes nothing and resolves nothing; a call never removes or changes
    an entry of [users]; and at the end of every run each key of [users]
    has been resolved exactly once (and nothing else has), however many
    pull requests and reviews name that login. *)
Theorem add_to_users_resolves_once :
  (∀ (users : gmap string string) new_user,
      is_Some (users !! login new_user) →
      add_to_users users new_user = users ∧ resolutions users new_user = []) ∧
  (∀ (users : gmap string string) new_user l display_name,
      users !! l = Some display_name →
      add_to_users users new_user !! l = Some display_name) ∧
  (∀ milestone target_directory pulls docs_pulls l,
      let st := (run milestone target_directory pulls docs_pulls).2 in
      length (filter (λ x, x = l) (resolved st))
      = if decide (l ∈ dom (users st)) then 1 else 0).
Proof.
  split; [apply add_to_users_known | split].
  - intros users0 new_user l display_name Hl.
    by eapply lookup_weaken, add_to_users_grows.
  - intros milestone target_directory pulls docs_pulls l. simpl.
    apply (preserves_main (λ _, True) resolved_once);
      [apply resolved_once_invariant | apply Forall_any | apply Forall_any |].
    intros l'. simpl. by rewrite dom_empty_L, decide_False by set_solver.
Qed.

(** ** Rendered logins are keys of [users] *)

Definition covered (st : state) : Prop :=
  authors st ⊆ dom (users st) ∧ reviewers st ⊆ dom (users st)
  ∧ docs_authors st ⊆ dom (users st) ∧ docs_reviewers st ⊆ dom (users st).

Lemma add_to_users_dom_mono users new_user :
  dom users ⊆ dom (add_to_users users new_user).
Proof. apply subseteq_dom, add_to_users_grows. Qed.

Ltac covered_record :=
  let u := fresh "u" in
  let st := fresh "st" in
  intros u st (Ha & Hr & Hda & Hdr); simpl;
  pose proof (add_to_users_dom_mono (users st) u);
  pose proof (add_to_users_dom (users st) u);
  repeat split; simpl;
  repeat (apply union_least; [|apply singleton_subseteq_l; assumption]);
  etrans; eassumption.

Lemma covered_invariant : step_invariant (λ _, True) covered.
Proof.
  split.
  - covered_record.
  - covered_record.
  - covered_record.
  - covered_record.
  - covered_record.
  - intros pull _. apply preserves_for_each_with. intros b [label_name section].
    simpl. case_decide; [|apply preserves_ret].
    apply preserves_bind; [|intros; apply preserves_ret].
    by apply preserves_highlights_set.
  - intros pull r _ _. by apply preserves_modify.
  - intros pull _. by apply preserves_highlights_set.
  - intros st (Ha & Hr & Hda & Hdr). repeat split; simpl; try done.
    + etrans; [apply subseteq_difference_l|]; done.
    + etrans; [apply subseteq_difference_l|]; done.
Qed.

Lemma covered_run milestone target_directory pulls docs_pulls :
  covered (run milestone target_directory pulls docs_pulls).2.
Proof.
  apply (preserves_main (λ _, True) covered);
    [apply covered_invariant | apply Forall_any | apply Forall_any |].
  repeat split; simpl; apply empty_subseteq.
Qed.

(** *** Rendering succeeds when the logins are covered *)

Lemma traverse_Returned {A B} (f : A → outcome B) (g : A → B) (l : list A) :
  (∀ x, x ∈ l → f x = Returned (g x)) → traverse f l = Returned (g <$> l).
Proof.
  induction l as [|x l IH]; intros Hf; simpl; [done|].
  rewrite Hf by left. simpl. rewrite IH; [done|].
  intros y Hy. apply Hf. by right.
Qed.

(** The display name of a login; the login itself stands in where [users]
    has no entry (rendering raises [KeyError] there). *)
Definition display_name (users : gmap string string) (c : string) : string :=
  default c (users !! c).

Lemma users_item_Returned users c :
  c ∈ dom users → users_item users c = Returned (display_name users c).
Proof.
  intros [n Hn]%elem_of_dom. unfold users_item, display_name. by rewrite Hn.
Qed.

Definition sort_key (users : gmap string string) (c : string) : string :=
  lower (display_name users c).

(** The order in which the bullets of a contributor set are written. *)
Definition sorted_logins (users : gmap string string) (cs : gset string)
    : list string :=
  (sort_keyed ((λ c, (sort_key users c, c)) <$> elements cs)).*2.

Definition bullet (users : gmap string string) (c : string) : string :=
  "- [" +:+ display_name users c +:+ "](" +:+ commit_link c +:+ ") - @" +:+ c.

Lemma sorted_contributors_Returned users cs :
  cs ⊆ dom users →
  sorted_contributors users cs = Returned (sorted_logins users cs).
Proof.
  intros Hcs. unfold sorted_contributors, sorted_logins.
  rewrite (traverse_Returned _ (λ c, (sort_key users c, c))); [done|].
  intros c Hc%elem_of_elements. by rewrite users_item_Returned by auto.
Qed.

Lemma insert_keyed_Permutation x l : insert_keyed x l ≡ₚ x :: l.
Proof.
  induction l as [|y l IH]; simpl; [done|].
  destruct (String.ltb y.1 x.1); [|done].
  rewrite IH. apply Permutation_swap.
Qed.

Lemma sort_keyed_Permutation l : sort_keyed l ≡ₚ l.
Proof.
  induction l as [|x l IH]; simpl; [done|].
  by rewrite insert_keyed_Permutation, IH.
Qed.

Lemma sorted_logins_Permutation users cs : sorted_logins users cs ≡ₚ elements cs.
Proof.
  unfold sorted_logins. rewrite sort_keyed_Permutation.
  rewrite <- list_fmap_compose. simpl.
  by rewrite list_fmap_id.
Qed.

Lemma elem_of_sorted_logins users cs c : c ∈ sorted_logins users cs ↔ c ∈ cs.
Proof. by rewrite sorted_logins_Permutation, elem_of_elements. Qed.

Lemma contributor_lines_Returned users cs :
  cs ⊆ dom users →
  contributor_lines users cs = Returned (bullet users <$> sorted_logins users cs).
Proof.
  intros Hcs. unfold contributor_lines.
  rewrite sorted_contributors_Returned by done. simpl.
  apply traverse_Returned. intros c Hc%elem_of_sorted_logins.
  unfold contributor_line. by rewrite users_item_Returned by auto.
Qed.

(** The text of one item of [contributors], and of the new-contributors
    section, when no lookup fails. *)
Definition contributors_text (users : gmap string string)
    (item : string * gset string) : string :=
  print ""
  +:+ print ("## " +:+ str_of_nat (size item.2) +:+ " " +:+ item.1
             +:+ " added to this release (alphabetical)")
  +:+ print ""
  +:+ join (print <$> (bullet users <$> sorted_logins users item.2))
  +:+ print "".

Definition new_contributors_text (users : gmap string string)
    (old new : gset string) : string :=
  if new_contributors_shown old new then
    print "## New Contributors"
    +:+ print ""
    +:+ print ("There are " +:+ str_of_nat (size new)
               +:+ " new contributors for this release:")
    +:+ print ""
    +:+ join (print <$> (bullet users <$> sorted_logins users new))
  else "".

Definition report_text (milestone : string) (old : gset string) (st : state)
    : string :=
  header milestone
  +:+ join (section_block <$> highlights st)
  +:+ join (contributors_text (users st) <$> contributors st)
  +:+ new_contributors_text (users st) old (new_contributors st old).

Lemma contributors_block_Returned users item :
  item.2 ⊆ dom users →
  contributors_block users item = Returned (contributors_text users item).
Proof.
  intros Hcs. unfold contributors_block.
  by rewrite contributor_lines_Returned by done.
Qed.

Lemma new_contributors_block_Returned users old new :
  new ⊆ dom users →
  new_contributors_block users old new
  = Returned (new_contributors_text users old new).
Proof.
  intros Hcs. unfold new_contributors_block, new_contributors_text.
  destruct (new_contributors_shown old new); [|done].
  by rewrite contributor_lines_Returned by done.
Qed.

Lemma new_contributors_covered st old :
  covered st → new_contributors st old ⊆ dom (users st).
Proof.
  intros (Ha & _ & Hda & _). unfold new_contributors.
  etrans; [apply subseteq_difference_l; reflexivity|].
  by apply union_least.
Qed.

Lemma render_Returned milestone old st :
  covered st → render milestone old st = Returned (report_text milestone old st).
Proof.
  intros Hcov. unfold render.
  rewrite (traverse_Returned _ (contributors_text (users st))).
  - simpl. rewrite new_contributors_block_Returned; [done|].
    by apply new_contributors_covered.
  - destruct Hcov as (Ha & Hr & Hda & Hdr).
    intros item Hitem. apply contributors_block_Returned.
    unfold contributors in Hitem.
    repeat (apply elem_of_cons in Hitem as [->|Hitem]; [done|]).
    by apply elem_of_nil in Hitem.
Qed.

(** C10. At the end of every run each login of a rendered contributor set
    (authors, reviewers, docs authors, docs reviewers, new contributors)
    is a key of [users]; so every lookup [users[c]] of the rendering
    returns, and the rendering returns the report. *)
Theorem rendered_logins_are_users milestone target_directory pulls docs_pulls :
  let st := (run milestone target_directory pulls docs_pulls).2 in
  let old := old_contributors milestone target_directory in
  (∀ c, c ∈ authors st ∪ reviewers st ∪ docs_authors st ∪ docs_reviewers st
            ∪ new_contributors st old →
        ∃ display_name, users st !! c = Some display_name
                        ∧ users_item (users st) c = Returned display_name)
  ∧ ∃ text, render milestone old st = Returned text.
Proof.
  intros st old.
  pose proof (covered_run milestone target_directory pulls docs_pulls) as Hcov.
  fold st in Hcov. split.
  - intros c Hc.
    assert (c ∈ dom (users st)) as [n Hn]%elem_of_dom.
    { pose proof (new_contributors_covered st old Hcov).
      destruct Hcov as (Ha & Hr & Hda & Hdr).
      repeat (apply elem_of_union in Hc as [Hc|Hc]); auto. }
    exists n. unfold users_item. by rewrite Hn.
  - eexists. by apply render_Returned.
Qed.

(** ** Runs that return and runs that abort *)

(** From a state with [I], [m] returns and keeps [I]. *)
Definition total {A} (I : state → Prop) (m : M A) : Prop :=
  ∀ st, I st → I (m st).2 ∧ ∃ a, (m st).1 = Returned a.

Lemma total_ret {A} I (a : A) : total I (mret a).
Proof. intros st HI. split; [done | by exists a]. Qed.

Lemma total_gets {A} I (f : state → A) : total I (gets f).
Proof. intros st HI. split; [done | by eexists]. Qed.

Lemma total_modify I f : (∀ st, I st → I (f st)) → total I (modify f).
Proof. intros Hf st HI. split; [by apply Hf | by eexists]. Qed.

Lemma total_bind {A B} I (m : M A) (f : A → M B) :
  total I m → (∀ a, total I (f a)) → total I (m ≫= f).
Proof.
  intros Hm Hf st HI. destruct (Hm st HI) as [HI' [a Ha]].
  unfold mbind, M_mbind, M_bind.
  destruct (m st) as [o st']; simpl in *; subst o. by apply Hf.
Qed.

Lemma total_when {A} I (x : option A) body :
  (∀ a, total I (body a)) → total I (when_not_None x body).
Proof. destruct x; simpl; [done | intros; apply total_ret]. Qed.

Lemma total_for_each {A} I (l : list A) body :
  (∀ a, a ∈ l → total I (body a)) → total I (for_each l body).
Proof.
  induction l as [|x l IH]; intros Hb; simpl; [apply total_ret|].
  apply total_bind; [apply Hb; left | intros _; apply IH].
  intros a Ha. apply Hb. by right.
Qed.

Lemma total_for_each_with {A B} I (l : list A) (acc : B) body :
  (∀ b a, a ∈ l → total I (body b a)) → total I (for_each_with l acc body).
Proof.
  revert acc. induction l as [|x l IH]; intros acc Hb; simpl; [apply total_ret|].
  apply total_bind; [apply Hb; left | intros acc'; apply IH].
  intros b a Ha. apply Hb. by right.
Qed.

(** *** The sections of [highlights] stay in place *)

Lemma get_item_is_Some {K V} `{EqDecision K} (k : K) (d : list (K * V)) :
  is_Some (get_item k d) ↔ k ∈ keys d.
Proof.
  unfold keys. induction d as [|[k' v] d IH]; simpl.
  - rewrite elem_of_nil. split; [by intros [? ?] | done].
  - rewrite elem_of_cons. destruct (decide (k = k')) as [->|Hne].
    + split; [intros _; by left | intros _; by eexists].
    + rewrite IH. split; [by right | by intros [?|?]].
Qed.

Lemma keys_set_item {K V} `{EqDecision K} (k : K) (v : V) (d : list (K * V)) :
  k ∈ keys d → keys (set_item k v d) = keys d.
Proof.
  unfold keys. induction d as [|[k' v'] d IH]; simpl.
  - by intros ?%elem_of_nil.
  - intros Hk. case_decide; simpl; [by subst|].
    f_equal. apply IH. apply elem_of_cons in Hk as [?|?]; done.
Qed.

Definition sections_in_place (st : state) : Prop :=
  keys (highlights st) = keys initial_highlights.

Lemma total_highlights_set section number info :
  section ∈ keys initial_highlights →
  total sections_in_place (highlights_set section number info).
Proof.
  intros Hs st Hst. unfold highlights_set, mbind, M_mbind, M_bind. simpl.
  assert (section ∈ keys (highlights st)) as Hin by by rewrite Hst.
  destruct (get_item_is_Some section (highlights st)) as [_ [d Hd]]; [done|].
  rewrite Hd. simpl. split; [|by eexists].
  unfold sections_in_place. simpl. by rewrite keys_set_item.
Qed.

Lemma label_to_section_in_place :
  Forall (λ entry, entry.2 ∈ keys initial_highlights) label_to_section.
Proof. repeat constructor; simpl; set_solver. Qed.

Lemma total_assign_sections pull :
  total sections_in_place (assign_sections pull).
Proof.
  apply total_for_each_with. intros b [label_name section] Hin.
  simpl. case_decide; [|apply total_ret].
  apply total_bind; [|intros; apply total_ret].
  apply total_highlights_set.
  by apply (proj1 (Forall_forall _ _) label_to_section_in_place _ Hin).
Qed.

Lemma total_record (f : User → state → state) (u : User) :
  (∀ st, highlights (f u st) = highlights st) →
  total sections_in_place (call_add_to_users u;; modify (f u)).
Proof.
  intros Hf. apply total_bind; [by apply total_modify | intros _].
  apply total_modify. intros st Hst. unfold sections_in_place. by rewrite Hf.
Qed.

Lemma total_process_pull pull :
  merged pull = true → total sections_in_place (process_pull pull).
Proof.
  intros Hm. unfold process_pull. rewrite Hm.
  apply total_bind; [apply total_ret | intros _].
  apply total_bind;
    [apply total_when; intros u;
     by apply (total_record (λ u, with_committers (λ s, s ∪ {[login u]}))) | intros _].
  apply total_bind;
    [apply total_when; intros u;
     by apply (total_record (λ u, with_authors (λ s, s ∪ {[login u]}))) | intros _].
  apply total_bind.
  { apply total_for_each. intros review _. apply total_when. intros u.
    by apply (total_record (λ u, with_reviewers (λ s, s ∪ {[login u]}))). }
  intros _. apply total_bind; [apply total_assign_sections|].
  intros [|]; [apply total_ret | by apply total_modify].
Qed.

Lemma total_process_docs_pull pull :
  merged pull = true → total sections_in_place (process_docs_pull pull).
Proof.
  intros Hm. unfold process_docs_pull. rewrite Hm.
  apply total_bind; [apply total_ret | intros _].
  apply total_bind; [by apply total_modify | intros _].
  apply total_bind; [by apply total_modify | intros _].
  apply total_bind.
  { apply total_for_each. intros review _. apply total_when. intros u.
    by apply (total_record (λ u, with_docs_reviewers (λ s, s ∪ {[login u]}))). }
  intros _. case_decide; [by apply total_modify|].
  apply total_highlights_set. set_solver.
Qed.

Lemma process_pull_unmerged pull st :
  merged pull = false → process_pull pull st = (Raised AssertionError, st).
Proof. intros Hm. unfold process_pull. by rewrite Hm. Qed.

Lemma process_docs_pull_unmerged pull st :
  merged pull = false → process_docs_pull pull st = (Raised AssertionError, st).
Proof. intros Hm. unfold process_docs_pull. by rewrite Hm. Qed.

(** A loop over pull requests returns when all are merged and otherwise
    stops at the first that is not. *)
Lemma for_each_merged (body : PullRequest → M unit) (l : list PullRequest) st :
  (∀ pull, merged pull = true → total sections_in_place (body pull)) →
  (∀ pull st, merged pull = false → body pull st = (Raised AssertionError, st)) →
  sections_in_place st →
  sections_in_place (for_each l body st).2
  ∧ (for_each l body st).1
    = if forallb merged l then Returned () else Raised AssertionError.
Proof.
  intros Hok Hbad. revert st. induction l as [|pull l IH]; intros st Hst; [done|].
  simpl. unfold mbind, M_mbind, M_bind.
  destruct (merged pull) eqn:Hm; simpl.
  - destruct (Hok pull Hm st Hst) as [Hst' [[] Hr]].
    destruct (body pull st) as [o st']; simpl in *; subst o. by apply IH.
  - by rewrite (Hbad pull st Hm).
Qed.

Lemma collect_outcome pulls docs_pulls :
  (collect pulls docs_pulls initial_state).1
  = if forallb merged (pulls ++ docs_pulls) then Returned ()
    else Raised AssertionError.
Proof.
  unfold collect, mbind, M_mbind, M_bind. rewrite forallb_app.
  destruct (for_each_merged process_pull pulls initial_state
              total_process_pull process_pull_unmerged eq_refl) as [Hst Hr].
  destruct (for_each pulls process_pull initial_state) as [o st]; simpl in *.
  subst o. destruct (forallb merged pulls); simpl; [|done].
  destruct (for_each_merged process_docs_pull docs_pulls st
              total_process_docs_pull process_docs_pull_unmerged Hst) as [_ Hr].
  destruct (for_each docs_pulls process_docs_pull st) as [o st']; simpl in *.
  subst o. by destruct (forallb merged docs_pulls).
Qed.

(** What a run returns or raises. *)
Lemma run_outcome milestone target_directory pulls docs_pulls :
  (run milestone target_directory pulls docs_pulls).1
  = if forallb merged (pulls ++ docs_pulls) then
      Returned
        {| file := (λ _, res_file_name milestone) <$> target_directory;
           text := report_text milestone
                     (old_contributors milestone target_directory)
                     (run milestone target_directory pulls docs_pulls).2 |}
    else Raised AssertionError.
Proof.
  pose proof (covered_run milestone target_directory pulls docs_pulls) as Hcov.
  revert Hcov. unfold run. rewrite main_state.
  pose proof (collect_outcome pulls docs_pulls) as Hc. revert Hc.
  unfold main, mbind, M_mbind, M_bind.
  destruct (collect pulls docs_pulls initial_state) as [o st]. simpl.
  intros -> Hcov. destruct (forallb merged (pulls ++ docs_pulls)); [|done].
  simpl. by rewrite render_Returned.
Qed.

(** C8. When a pull request of either query result is not merged, the
    run ends with [AssertionError]; and the loop body of either source
    raises it for such a pull request from any state and leaves every
    collection as it was, so nothing of that pull request is classified
    or recorded. *)
Theorem unmerged_pull_aborts milestone target_directory pulls docs_pulls pull :
  pull ∈ pulls ++ docs_pulls →
  merged pull = false →
  (run milestone target_directory pulls docs_pulls).1 = Raised AssertionError
  ∧ ∀ st, process_pull pull st = (Raised AssertionError, st)
          ∧ process_docs_pull pull st = (Raised AssertionError, st).
Proof.
  intros Hin Hm. split.
  - rewrite run_outcome.
    destruct (forallb merged (pulls ++ docs_pulls)) eqn:Hall; [|done].
    rewrite forallb_forall in Hall.
    apply list_elem_of_In, Hall in Hin. congruence.
  - intros st. by rewrite process_pull_unmerged, process_docs_pull_unmerged.
Qed.

(** ** Classification by labels *)

(** Pull request [number] is listed in section [section] of [hl]. *)
Definition filed (section : string) (number : Z)
    (hl : list (string * list (Z * Info))) : Prop :=
  ∃ d, get_item section hl = Some d ∧ number ∈ keys d.

Lemma get_item_set_item {K V} `{EqDecision K} (k k' : K) (v : V) d :
  get_item k (set_item k' v d) = if decide (k = k') then Some v else get_item k d.
Proof.
  induction d as [|[k0 v0] d IH]; simpl.
  - by repeat case_decide.
  - destruct (decide (k' = k0)) as [->|Hne]; simpl.
    + by repeat case_decide.
    + rewrite IH. repeat case_decide; congruence.
Qed.

Lemma elem_of_keys_set_item {K V} `{EqDecision K} (k k' : K) (v : V) d :
  k ∈ keys (set_item k' v d) ↔ k = k' ∨ k ∈ keys d.
Proof.
  unfold keys. induction d as [|[k0 v0] d IH]; simpl.
  - rewrite list_elem_of_singleton, elem_of_nil. tauto.
  - destruct (decide (k' = k0)) as [->|Hne]; simpl.
    + rewrite !elem_of_cons. tauto.
    + rewrite !elem_of_cons, IH. tauto.
Qed.

Lemma filed_set_item section number s n info d hl :
  get_item s hl = Some d →
  filed section number (set_item s (set_item n info d) hl)
  ↔ filed section number hl ∨ (section = s ∧ number = n).
Proof.
  intros Hd. unfold filed. setoid_rewrite get_item_set_item.
  destruct (decide (section = s)) as [->|Hne].
  - split.
    + intros (d' & [= <-] & Hn). apply elem_of_keys_set_item in Hn as [->|Hn].
      * by right.
      * left. by exists d.
    + intros [(d' & Hd' & Hn)|[_ ->]]; eexists; (split; [done|]);
        apply elem_of_keys_set_item; [right; congruence | by left].
  - split; [by left | intros [?|[? _]]; done].
Qed.

Lemma assign_section_run pull assigned label_name section st :
  section ∈ keys initial_highlights →
  sections_in_place st →
  ∃ d, get_item section (highlights st) = Some d
    ∧ assign_section pull assigned (label_name, section) st
      = if decide (label_name ∈ pr_lables pull) then
          (Returned true,
           with_highlights
             (set_item section
                (set_item (number pull)
                   {| summary := title pull; repo := "napari" |} d)) st)
        else (Returned assigned, st).
Proof.
  intros Hsec Hst.
  assert (section ∈ keys (highlights st)) as Hin by by rewrite Hst.
  destruct (get_item_is_Some section (highlights st)) as [_ [d Hd]]; [done|].
  exists d. split; [done|]. simpl. case_decide; [|done].
  unfold highlights_set, mbind, M_mbind, M_bind. simpl. by rewrite Hd.
Qed.

(** The loop of lines 135-138 over a table whose sections exist: it
    returns whether a key of the table is a label (or [assigned] was set
    before), and files the pull request under the section of every such
    key, touching nothing else. *)
Lemma assign_loop pull (table : list (string * string)) (assigned : bool) st :
  Forall (λ entry, entry.2 ∈ keys initial_highlights) table →
  sections_in_place st →
  let r := for_each_with table assigned (assign_section pull) st in
  r.1 = Returned (assigned
                  || existsb (λ entry, bool_decide (entry.1 ∈ pr_lables pull)) table)
  ∧ other_pull_requests r.2 = other_pull_requests st
  ∧ ∀ s n, filed s n (highlights r.2)
           ↔ filed s n (highlights st)
             ∨ (n = number pull
                ∧ ∃ l, (l, s) ∈ table ∧ l ∈ pr_lables pull).
Proof.
  revert assigned st. induction table as [|[label_name section] table IH];
    intros assigned st Htable Hst.
  - simpl. rewrite orb_false_r. repeat split; [by left|].
    intros [?|(_ & l & []%elem_of_nil & _)]; done.
  - apply Forall_cons in Htable as [Hsec Htable]. simpl in Hsec.
    destruct (assign_section_run pull assigned label_name section st Hsec Hst)
      as (d & Hd & Hrun).
    cbn [for_each_with existsb fst]. unfold mbind, M_mbind, M_bind.
    rewrite Hrun. clear Hrun.
    destruct (decide (label_name ∈ pr_lables pull)) as [Hl|Hl].
    + rewrite bool_decide_eq_true_2 by done.
      assert (sections_in_place
                (with_highlights
                   (set_item section
                      (set_item (number pull)
                         {| summary := title pull; repo := "napari" |} d)) st))
        as Hst'.
      { unfold sections_in_place. simpl. rewrite keys_set_item; [done|].
        by rewrite Hst. }
      destruct (IH true _ Htable Hst') as (Hr & Ho & Hf). clear IH.
      rewrite Hr. simpl. rewrite orb_true_r. split; [done|]. split; [done|].
      intros s n. rewrite Hf. simpl. rewrite filed_set_item by done.
      split.
      * intros [[?|[-> ->]]|(-> & l & Hin' & Hl')]; [by left|..].
        -- right. split; [done|]. exists label_name. split; [left|done].
        -- right. split; [done|]. exists l. split; [by right|done].
      * intros [?|(-> & l & Hin' & Hl')]; [by left; left|].
        apply elem_of_cons in Hin' as [[= -> ->]|Hin'].
        -- left. by right.
        -- right. split; [done|]. by exists l.
    + rewrite bool_decide_eq_false_2 by done. simpl.
      destruct (IH assigned st Htable Hst) as (Hr & Ho & Hf). clear IH.
      split; [done|]. split; [done|].
      intros s n. rewrite Hf. split.
      * intros [?|(-> & l & Hin' & Hl')]; [by left|].
        right. split; [done|]. exists l. split; [by right|done].
      * intros [?|(-> & l & Hin' & Hl')]; [by left|].
        apply elem_of_cons in Hin' as [[= -> ->]|Hin']; [done|].
        right. split; [done|]. by exists l.
Qed.

Lemma bind_total {A B} I (m : M A) (f : A → M B) st :
  total I m → I st → ∃ a st1, I st1 ∧ (m ≫= f) st = f a st1.
Proof.
  intros Hm HI. destruct (Hm st HI) as [HI' [a Ha]].
  unfold mbind, M_mbind, M_bind.
  destruct (m st) as [o st1]; simpl in *; subst o. by exists a, st1.
Qed.

(** Recording the contributors leaves the sections alone. *)
Definition sections_are (hl : list (string * list (Z * Info)))
    (other : list (Z * Info)) (st : state) : Prop :=
  highlights st = hl ∧ other_pull_requests st = other.

Lemma total_record_sections hl other (f : state → state) (u : User) :
  (∀ st, highlights (f st) = highlights st
         ∧ other_pull_requests (f st) = other_pull_requests st) →
  total (sections_are hl other) (call_add_to_users u;; modify f).
Proof.
  intros Hf. apply total_bind; [by apply total_modify | intros _].
  apply total_modify. intros st [<- <-]. apply Hf.
Qed.

(** Lines 133-141 of the loop over the main repository. *)
Definition classify (pull : PullRequest) : M unit :=
  assigned_to_section ← assign_sections pull;
  if assigned_to_section : bool then mret ()
  else modify (with_other_pull_requests
                 (set_item (number pull)
                    {| summary := title pull; repo := "napari" |})).

Lemma process_pull_classify pull st :
  merged pull = true →
  ∃ st1, sections_are (highlights st) (other_pull_requests st) st1
         ∧ process_pull pull st = classify pull st1.
Proof.
  intros Hm. unfold process_pull. rewrite Hm.
  set (I := sections_are (highlights st) (other_pull_requests st)).
  assert (I st) as Hst by done.
  change ((assert_ true ≫= ?f) st) with (f () st). cbv beta.
  lazymatch goal with
  | |- ∃ st', _ ∧ (?m ≫= ?f) st = _ =>
      destruct (bind_total I m f st) as (_ & st1 & Hst1 & ->); [|exact Hst|]
  end.
  { apply total_when. intros u. by apply total_record_sections. }
  lazymatch goal with
  | |- ∃ st', _ ∧ (?m ≫= ?f) st1 = _ =>
      destruct (bind_total I m f st1) as (_ & st2 & Hst2 & ->); [|exact Hst1|]
  end.
  { apply total_when. intros u. by apply total_record_sections. }
  lazymatch goal with
  | |- ∃ st', _ ∧ (?m ≫= ?f) st2 = _ =>
      destruct (bind_total I m f st2) as (_ & st3 & Hst3 & ->); [|exact Hst2|]
  end.
  { apply total_for_each. intros review _. apply total_when. intros u.
    by apply total_record_sections. }
  by exists st3.
Qed.

(** The first-match policy of the specification: the section of the first
    key of the table that is a label, or the catch-all section. *)
Definition first_match_section (pr_lables : gset string) : string :=
  match filter (λ entry, entry.1 ∈ pr_lables) label_to_section with
  | (_, section) :: _ => section
  | [] => "Other Pull Requests"
  end.

(** The sections of a finished [highlights] that list [number]. *)
Definition sections_listing (number : Z)
    (hl : list (string * list (Z * Info))) : list string :=
  (filter (λ item, number ∈ keys item.2) hl).*1.

(** C1, as amended. A merged pull request of the main repository is filed
    under the section of every key of the table that is among its
    lower-cased labels, and under no other section; it is added to
    [other_pull_requests], which becomes the section "Other Pull Requests",
    exactly when no key of the table is among its labels.  (The entries
    of other pull requests stay where they are.) *)
Theorem classification_files_every_match pull st :
  merged pull = true →
  sections_in_place st →
  let st' := (process_pull pull st).2 in
  (∀ section n,
      filed section n (highlights st')
      ↔ filed section n (highlights st)
        ∨ (n = number pull
           ∧ ∃ label_name, (label_name, section) ∈ label_to_section
                           ∧ label_name ∈ pr_lables pull))
  ∧ (∀ n, n ∈ keys (other_pull_requests st')
          ↔ n ∈ keys (other_pull_requests st)
            ∨ (n = number pull
               ∧ ∀ label_name section,
                   (label_name, section) ∈ label_to_section →
                   label_name ∉ pr_lables pull)).
Proof.
  intros Hm Hst.
  destruct (process_pull_classify pull st Hm) as (st1 & [Hh Ho] & Hrun).
  cbv zeta. rewrite Hrun. clear Hrun.
  assert (sections_in_place st1) as Hst1.
  { unfold sections_in_place. by rewrite Hh. }
  destruct (assign_loop pull label_to_section false st1
              label_to_section_in_place Hst1) as (Hr & Ho' & Hf).
  unfold classify, mbind, M_mbind, M_bind. fold (assign_sections pull) in *.
  destruct (assign_sections pull st1) as [o st2].
  cbn [fst snd orb] in Hr, Ho', Hf. subst o.
  destruct (existsb _ label_to_section) eqn:Hex;
    unfold mret, M_mret, M_ret, modify;
    cbn [fst snd with_other_pull_requests other_pull_requests highlights].
  - split; [intros; by rewrite Hf, Hh|].
    intros n. rewrite Ho', Ho. split; [by left|]. intros [?|[_ Hnone]]; [done|].
    apply existsb_exists in Hex as ([l s] & Hin%list_elem_of_In & Hl).
    apply bool_decide_eq_true in Hl. by apply Hnone in Hin.
  - split; [intros; by rewrite Hf, Hh|].
    intros n. rewrite elem_of_keys_set_item, Ho', Ho.
    split; [intros [->|?]; [right|by left] | intros [?|[-> _]]; [by right|by left]].
    split; [done|]. intros l s Hin Hl.
    assert (existsb (λ entry, bool_decide (entry.1 ∈ pr_lables pull))
              label_to_section = true) as Hex'; [|congruence].
    apply existsb_exists. exists (l, s).
    split; [by apply list_elem_of_In | by apply bool_decide_eq_true].
Qed.

(** ** Removing the bots *)

Lemma finish_collection_bots st :
  let st' := (finish_collection st).2 in
  authors st' = authors st ∖ BOT_LIST
  ∧ committers st' = committers st ∖ BOT_LIST
  ∧ docs_authors st' = docs_authors st ∖ BOT_LIST
  ∧ docs_committers st' = docs_committers st ∖ BOT_LIST
  ∧ reviewers st' = reviewers st
  ∧ docs_reviewers st' = docs_reviewers st.
Proof. done. Qed.

(** ** The name of the report file *)

(** The file name of the specification: every character of the
    milestone that is not alphanumeric becomes an underscore. *)
Definition separators_normalized_name (milestone : string) : string :=
  "release_"
  +:+ map_chars (λ c, if is_alnum c then c else "_"%char) milestone
  +:+ ".md".

Definition dot_to_underscore (c : ascii) : ascii :=
  if Ascii.eqb c "."%char then "_"%char else c.

Lemma map_chars_length f s : String.length (map_chars f s) = String.length s.
Proof. induction s; simpl; congruence. Qed.

Lemma map_chars_get f s i : String.get i (map_chars f s) = f <$> String.get i s.
Proof.
  revert i. induction s as [|c s IH]; intros [|i]; simpl; by try apply IH.
Qed.

Lemma map_chars_agree f g s :
  map_chars f s = map_chars g s
  ↔ all_chars (λ c, bool_decide (f c = g c)) s = true.
Proof.
  induction s as [|c s IH]; simpl; [done|].
  rewrite andb_true_iff, bool_decide_eq_true, <- IH.
  split; [by intros [= -> ->] | by intros [-> ->]].
Qed.

Lemma all_chars_ext p q s :
  (∀ c, p c = q c) → all_chars p s = all_chars q s.
Proof. intros Hpq. induction s; simpl; congruence. Qed.

Lemma app_suffix_cancel (a b s : string) :
  String.length a = String.length b → a +:+ s = b +:+ s → a = b.
Proof.
  revert b. induction a as [|c a IH]; intros [|c' b] Hlen; simpl in *;
    try done.
  intros [= -> Hab]. f_equal. apply IH; [lia | done].
Qed.

Lemma dot_or_alnum_agree c :
  bool_decide (dot_to_underscore c = if is_alnum c then c else "_"%char)
  = is_alnum c || Ascii.eqb c "."%char || Ascii.eqb c "_"%char.
Proof. by destruct c as [[] [] [] [] [] [] [] []]. Qed.

(** C9, as amended. The report file is named [release_<stem>.md], where
    the stem is the milestone with every dot replaced by an underscore and
    every other character kept, alphanumeric or not; in file-output mode
    a run that returns names this file.  The name has all separators as
    underscores exactly when every character of the milestone is
    alphanumeric, a dot or an underscore. *)
Theorem res_file_name_replaces_dots (milestone : string) :
  (∃ stem, res_file_name milestone = "release_" +:+ stem +:+ ".md"
           ∧ String.length stem = String.length milestone
           ∧ ∀ i, String.get i stem
                  = (λ c, if Ascii.eqb c "."%char then "_"%char else c)
                      <$> String.get i milestone)
  ∧ (∀ directory pulls docs_pulls report,
        (run milestone (Some directory) pulls docs_pulls).1 = Returned report →
        file report = Some (res_file_name milestone))
  ∧ (res_file_name milestone = separators_normalized_name milestone
     ↔ all_chars (λ c, is_alnum c || Ascii.eqb c "."%char || Ascii.eqb c "_"%char)
         milestone = true).
Proof.
  split; [|split].
  - exists (replace "." "_" milestone). split; [done|].
    split; [apply map_chars_length | intros i; apply map_chars_get].
  - intros directory pulls docs_pulls report. rewrite run_outcome.
    destruct (forallb merged (pulls ++ docs_pulls)); [|done].
    by intros [= <-].
  - rewrite <- (all_chars_ext _ _ _ dot_or_alnum_agree), <- map_chars_agree.
    unfold res_file_name, separators_normalized_name, replace.
    split; [|by intros <-].
    intros H. apply (inj (String.app "release_")) in H.
    apply app_suffix_cancel in H; [done|]. by rewrite !map_chars_length.
Qed.

(** ** Appending text *)

Lemma str_app_cons c (s t : string) : String c s +:+ t = String c (s +:+ t).
Proof. done. Qed.

Lemma str_app_assoc (a b c : string) : (a +:+ b) +:+ c = a +:+ (b +:+ c).
Proof. induction a as [|x a IH]; [done|]. by rewrite !str_app_cons, IH. Qed.

Lemma str_app_nil_r (a : string) : a +:+ "" = a.
Proof. induction a as [|x a IH]; [done|]. by rewrite str_app_cons, IH. Qed.

Lemma str_length_app (a b : string) :
  String.length (a +:+ b) = String.length a + String.length b.
Proof.
  induction a as [|c a IH]; [done|]. rewrite str_app_cons. simpl.
  by rewrite IH.
Qed.

(** ** The new-contributors section *)

Lemma elem_of_foldl_findall (l : list (string * string)) (acc : gset string) c :
  c ∈ foldl (λ old f, old ∪ list_to_set (findall f.2)) acc l
  ↔ c ∈ acc ∨ ∃ f, f ∈ l ∧ c ∈ findall f.2.
Proof.
  revert acc. induction l as [|f l IH]; intros acc; simpl.
  - split; [by left | intros [?|(f & []%elem_of_nil & _)]; done].
  - rewrite IH, elem_of_union, elem_of_list_to_set. split.
    + intros [[?|?]|(f' & Hf' & Hc)]; [by left|..].
      * right. exists f. split; [left|done].
      * right. exists f'. split; [by right|done].
    + intros [?|(f' & Hf' & Hc)]; [by left; left|].
      apply elem_of_cons in Hf' as [->|Hf']; [by left; right|].
      right. by exists f'.
Qed.

Lemma elem_of_old_contributors milestone directory c :
  c ∈ old_contributors milestone (Some directory)
  ↔ ∃ f, f ∈ prior_reports milestone directory ∧ c ∈ findall f.2.
Proof.
  unfold old_contributors. rewrite elem_of_foldl_findall, elem_of_empty.
  split; [by intros [[]|?] | by right].
Qed.





(** The text of the new-contributors section that the report of a run
    ends with; it is empty when the section is left out. *)
Definition new_contributors_section (milestone : string)
    (target_directory : option (list (string * string))) (st : state) : string :=
  new_contributors_text (users st)
    (old_contributors milestone target_directory)
    (new_contributors st (old_contributors milestone target_directory)).


(** ** The order of the bullets *)

Definition key_le (a b : string * string) : Prop := String.leb a.1 b.1 = true.

Lemma leb_trans (s1 s2 s3 : string) :
  String.leb s1 s2 = true → String.leb s2 s3 = true → String.leb s1 s3 = true.
Proof.
  intros H12%Is_true_true H23%Is_true_true. apply Is_true_true.
  exact (transitivity (R := String.le) H12 H23).
Qed.

Lemma ltb_leb (s1 s2 : string) : String.ltb s1 s2 = true → String.leb s1 s2 = true.
Proof. unfold String.ltb, String.leb. by destruct (String.compare s1 s2). Qed.

Lemma not_ltb_leb (s1 s2 : string) :
  String.ltb s1 s2 = false → String.leb s2 s1 = true.
Proof.
  unfold String.ltb, String.leb. rewrite (String.compare_antisym s1 s2).
  by destruct (String.compare s2 s1).
Qed.

Lemma insert_keyed_sorted x l :
  StronglySorted key_le l → StronglySorted key_le (insert_keyed x l).
Proof.
  induction 1 as [|y l Hl IH Hy]; simpl.
  - repeat constructor.
  - destruct (String.ltb y.1 x.1) eqn:Hlt.
    + constructor; [done|].
      rewrite insert_keyed_Permutation. constructor; [|done].
      by apply ltb_leb.
    + apply not_ltb_leb in Hlt. constructor; [by constructor|].
      constructor; [done|].
      eapply Forall_impl; [exact Hy|]. intros z Hz. by eapply leb_trans.
Qed.

Lemma sort_keyed_sorted l : StronglySorted key_le (sort_keyed l).
Proof.
  induction l as [|x l IH]; simpl; [constructor | by apply insert_keyed_sorted].
Qed.

Lemma sorted_logins_sorted users cs :
  StronglySorted
    (λ a b, String.leb (sort_key users a) (sort_key users b) = true)
    (sorted_logins users cs).
Proof.
  unfold sorted_logins.
  set (keyed := (λ c, (sort_key users c, c)) <$> elements cs).
  assert (Forall (λ p, p.1 = sort_key users p.2) (sort_keyed keyed)) as Hkeys.
  { rewrite sort_keyed_Permutation. subst keyed.
    apply Forall_fmap, Forall_forall. by intros c _. }
  pose proof (sort_keyed_sorted keyed) as Hsorted.
  induction Hsorted as [|p l Hl IH Hp]; simpl; [constructor|].
  apply Forall_cons in Hkeys as [Hk Hkeys].
  constructor; [by apply IH|].
  apply Forall_fmap, Forall_forall. intros q Hq. simpl.
  rewrite <- Hk, <- (proj1 (Forall_forall _ _) Hkeys q Hq).
  by apply (proj1 (Forall_forall _ _) Hp q Hq).
Qed.

(** C6. At the end of every run, the bullets of each rendered
    contributor list (authors, reviewers, docs authors, docs reviewers,
    new contributors) are those of the logins of the set, each once, in
    an order in which the lower-cased display names [users[c].lower()]
    never decrease. *)
Theorem bullets_sorted_by_display_name milestone target_directory pulls docs_pulls :
  let st := (run milestone target_directory pulls docs_pulls).2 in
  let old := old_contributors milestone target_directory in
  Forall (λ contributor_set,
    ∃ l display_names,
      contributor_lines (users st) contributor_set
      = Returned (zip_with (λ display_name c,
                    "- [" +:+ display_name +:+ "](" +:+ commit_link c
                    +:+ ") - @" +:+ c) display_names l)
      ∧ l ≡ₚ elements contributor_set
      ∧ Forall2 (λ c display_name, users st !! c = Some display_name)
          l display_names
      ∧ StronglySorted (λ n1 n2, String.leb n1 n2 = true)
          (lower <$> display_names))
    [authors st; reviewers st; docs_authors st; docs_reviewers st;
     new_contributors st old].
Proof.
  intros st old.
  pose proof (covered_run milestone target_directory pulls docs_pulls) as Hcov.
  fold st in Hcov.
  pose proof (new_contributors_covered st old Hcov) as Hnew.
  destruct Hcov as (Ha & Hr & Hda & Hdr).
  assert (∀ cs, cs ⊆ dom (users st) →
    ∃ l display_names,
      contributor_lines (users st) cs
      = Returned (zip_with (λ display_name c,
                    "- [" +:+ display_name +:+ "](" +:+ commit_link c
                    +:+ ") - @" +:+ c) display_names l)
      ∧ l ≡ₚ elements cs
      ∧ Forall2 (λ c display_name, users st !! c = Some display_name)
          l display_names
      ∧ StronglySorted (λ n1 n2, String.leb n1 n2 = true)
          (lower <$> display_names)) as Hall.
  { intros cs Hcs.
    exists (sorted_logins (users st) cs),
           (display_name (users st) <$> sorted_logins (users st) cs).
    split; [|split; [|split]].
    - rewrite contributor_lines_Returned by done. f_equal.
      generalize (sorted_logins (users st) cs). intros l.
      induction l as [|c l IH]; [done|]. rewrite !fmap_cons. simpl zip_with.
      by f_equal.
    - apply sorted_logins_Permutation.
    - apply Forall2_fmap_r, Forall2_same_length_lookup. split; [done|].
      intros i c c' Hc Hc'. assert (c' = c) as -> by congruence.
      assert (c ∈ dom (users st)) as [n Hn]%elem_of_dom.
      { apply Hcs. apply (elem_of_sorted_logins (users st)).
        by eapply list_elem_of_lookup_2. }
      simpl. unfold display_name. by rewrite Hn.
    - rewrite <- list_fmap_compose.
      pose proof (sorted_logins_sorted (users st) cs) as Hs.
      induction Hs as [|c l Hl IH Hc]; simpl; constructor; [done|].
      by apply Forall_fmap. }
  repeat (apply Forall_cons; split; [by apply Hall|]). constructor.
Qed.

(** ** Scanning a report for [@login] *)

Lemma all_chars_app p (a b : string) :
  all_chars p (a +:+ b) = all_chars p a && all_chars p b.
Proof.
  induction a as [|x a IH]; [done|].
  rewrite str_app_cons. simpl. by rewrite IH, andb_assoc.
Qed.

Lemma span_login_length s :
  String.length (span_login unicode s).1
  + String.length (span_login unicode s).2
  = String.length s.
Proof. by rewrite <- str_length_app, span_login_splits. Qed.

(** More steps than characters change nothing. *)
Lemma findall_steps_enough n m s :
  String.length s ≤ n → String.length s ≤ m →
  findall_steps (span_login unicode) n s
  = findall_steps (span_login unicode) m s.
Proof.
  revert m s. induction n as [|n IH]; intros [|m] [|c s]; simpl; try done;
    try lia.
  intros Hn Hm. pose proof (span_login_length s) as Hlen.
  destruct (Ascii.eqb c "@"); [|apply IH; lia].
  destruct (span_login unicode s) as [[|c' w] rest];
    simpl in Hlen.
  - apply IH; lia.
  - f_equal. apply IH; lia.
Qed.

Lemma findall_nil : findall "" = [].
Proof. done. Qed.

(** The scan, one character at a time. *)
Lemma findall_cons c s :
  findall (String c s)
  = if Ascii.eqb c "@" then
      match span_login unicode s with
      | ("", _) => findall s
      | (w, rest) => w :: findall rest
      end
    else findall s.
Proof.
  unfold findall, findall_with. simpl.
  pose proof (span_login_length s) as Hlen.
  destruct (Ascii.eqb c "@"); [|done].
  destruct (span_login unicode s) as [[|c' w] rest];
    simpl in Hlen; [done|].
  f_equal. apply findall_steps_enough; lia.
Qed.

(** Text without [@] is passed over. *)
Lemma findall_skip (p s : string) :
  no_at p = true → findall (p +:+ s) = findall s.
Proof.
  induction p as [|c p IH]; [done|].
  unfold no_at. simpl. intros [Hc Hp]%andb_true_iff.
  rewrite str_app_cons, findall_cons.
  apply negb_true_iff in Hc. rewrite Hc. by apply IH.
Qed.

(** A login at the end of a line is matched whole. *)
Lemma findall_mention (w s : string) :
  login_like w = true →
  findall (String "@" (w +:+ nl +:+ s)) = w :: findall s.
Proof.
  unfold login_like. intros [Hne Hw]%andb_true_iff.
  rewrite findall_cons. simpl (Ascii.eqb _ _).
  change (nl +:+ s) with (String "010" s).
  rewrite span_login_ascii by done.
  destruct w as [|c w]; [done|]. by rewrite findall_cons.
Qed.

Lemma login_like_no_at (w : string) : login_like w = true → no_at w = true.
Proof.
  unfold login_like, no_at. intros [_ Hw]%andb_true_iff.
  induction w as [|c w IH]; [done|]. simpl in *.
  apply andb_true_iff in Hw as [Hc Hw]. rewrite IH by done.
  rewrite andb_true_r. apply negb_true_iff.
  destruct (Ascii.eqb_spec c "@") as [->|]; [discriminate|done].
Qed.

Lemma no_at_app (a b : string) : no_at (a +:+ b) = no_at a && no_at b.
Proof. apply all_chars_app. Qed.

Lemma no_at_uint d : no_at (NilEmpty.string_of_uint d) = true.
Proof. induction d; simpl; done. Qed.

Lemma no_at_str_of_nat n : no_at (str_of_nat n) = true.
Proof.
  unfold str_of_nat, NilZero.string_of_uint.
  destruct (Nat.to_uint n); try done; apply no_at_uint.
Qed.

Lemma no_at_str_of_Z n : no_at (str_of_Z n) = true.
Proof.
  unfold str_of_Z, NilZero.string_of_int, NilZero.string_of_uint.
  destruct (Z.to_int n) as [d|d]; destruct d; try done;
    try apply no_at_uint; apply (no_at_uint (_ d)).
Qed.

Lemma no_at_join (l : list string) :
  Forall (λ s, no_at s = true) l → no_at (join l) = true.
Proof.
  induction 1 as [|s l Hs Hl IH]; [done|].
  simpl. by rewrite no_at_app, Hs, IH.
Qed.

(** *** Sections without [@] *)

Definition info_clean (entry : Z * Info) : Prop :=
  no_at (summary entry.2) = true ∧ no_at (repo entry.2) = true.

Definition section_clean (item : string * list (Z * Info)) : Prop :=
  no_at item.1 = true ∧ Forall info_clean item.2.

Definition sections_clean (st : state) : Prop :=
  Forall section_clean (highlights st)
  ∧ Forall info_clean (other_pull_requests st).

Lemma Forall_set_item {K V} `{EqDecision K} (P : K * V → Prop) k v d :
  Forall P d → P (k, v) → Forall P (set_item k v d).
Proof.
  intros Hd Hkv. induction Hd as [|[k' v'] d Hx Hd IH]; simpl.
  - by constructor.
  - case_decide; constructor; done.
Qed.

Lemma get_item_Forall {K V} `{EqDecision K} (P : K * V → Prop) k v d :
  Forall P d → get_item k d = Some v → P (k, v).
Proof.
  induction 1 as [|[k' v'] d Hx Hd IH]; simpl; [done|].
  case_decide; [by intros [= <-]; subst | done].
Qed.

Lemma sections_clean_highlights_set section number info :
  info_clean (number, info) →
  preserves sections_clean (highlights_set section number info).
Proof.
  intros Hinfo st [Hhl Hother]. unfold highlights_set, mbind, M_mbind, M_bind.
  simpl. destruct (get_item section (highlights st)) as [d|] eqn:Hd; [|done].
  simpl. split; [|done]. simpl.
  destruct (get_item_Forall _ _ _ _ Hhl Hd) as [Hname Hentries].
  apply Forall_set_item; [done|]. split; [done|]. simpl.
  by apply Forall_set_item.
Qed.

Lemma sections_clean_invariant :
  step_invariant (λ pull, no_at (title pull) = true) sections_clean.
Proof.
  apply step_invariant_intro; try done.
  - intros u. by apply preserves_modify.
  - intros pull Htitle. apply preserves_for_each_with.
    intros b [label_name section]. simpl. case_decide; [|apply preserves_ret].
    apply preserves_bind; [|intros; apply preserves_ret].
    by apply sections_clean_highlights_set.
  - intros pull r Htitle Hr. apply preserves_modify. intros st [Hhl Hother].
    split; [done|]. simpl. apply Forall_set_item; [done|].
    split; [done|]. by destruct Hr as [-> | ->].
  - intros pull Htitle. by apply sections_clean_highlights_set.
  - intros st [Hhl Hother]. split; [|done]. simpl.
    by apply Forall_set_item.
Qed.

Lemma sections_clean_run milestone target_directory pulls docs_pulls :
  forallb (λ pull, no_at (title pull)) (pulls ++ docs_pulls) = true →
  sections_clean (run milestone target_directory pulls docs_pulls).2.
Proof.
  rewrite forallb_app, andb_true_iff, !forallb_forall.
  intros [Hpulls Hdocs].
  apply (preserves_main (λ pull, no_at (title pull) = true) sections_clean).
  - apply sections_clean_invariant.
  - apply Forall_forall. intros pull Hin. by apply Hpulls, list_elem_of_In.
  - apply Forall_forall. intros pull Hin. by apply Hdocs, list_elem_of_In.
  - split; [|constructor]. repeat constructor.
Qed.

(** *** The scan of a rendered report *)

Section Rescan.

Hypothesis GH_clean : no_at GH = true.
Hypothesis GH_USER_clean : no_at GH_USER = true.
Hypothesis GH_REPO_clean : no_at GH_REPO = true.

Ltac no_at_parts :=
  repeat rewrite no_at_app;
  repeat rewrite no_at_str_of_Z; repeat rewrite no_at_str_of_nat;
  repeat match goal with H : no_at _ = true |- _ => rewrite H end;
  reflexivity.

Lemma no_at_header milestone :
  no_at milestone = true → no_at (header milestone) = true.
Proof. intros Hm. unfold header, print. no_at_parts. Qed.

Lemma no_at_section_block item :
  section_clean item → no_at (section_block item) = true.
Proof.
  intros [Hname Hentries]. unfold section_block, print.
  rewrite !no_at_app, Hname, no_at_join; [done|].
  apply Forall_fmap. eapply Forall_impl; [exact Hentries|].
  intros [n info] [Hs Hr]. simpl in *. unfold pull_request_line. no_at_parts.
Qed.

Lemma no_at_commit_link c : no_at c = true → no_at (commit_link c) = true.
Proof. intros Hc. unfold commit_link. no_at_parts. Qed.

(** A login that can be written and read back, with a display name
    that cannot be mistaken for a mention. *)
Definition bullet_clean (users : gmap string string) (c : string) : Prop :=
  login_like c = true ∧ no_at (display_name users c) = true.

Lemma findall_bullet users c s :
  bullet_clean users c →
  findall (print (bullet users c) +:+ s) = c :: findall s.
Proof.
  intros [Hc Hname]. pose proof (login_like_no_at c Hc) as Hc'.
  unfold print, bullet. rewrite !str_app_assoc.
  rewrite (findall_skip "- [") by done.
  rewrite (findall_skip (display_name users c)) by done.
  rewrite (findall_skip "](") by done.
  rewrite (findall_skip (commit_link c)) by by apply no_at_commit_link.
  change (") - @" +:+ ?x) with (") - " +:+ String "@" x).
  rewrite (findall_skip ") - ") by done.
  by apply findall_mention.
Qed.

Lemma findall_bullets users l s :
  Forall (bullet_clean users) l →
  findall (join (print <$> (bullet users <$> l)) +:+ s) = l ++ findall s.
Proof.
  induction 1 as [|c l Hc Hl IH]; [done|].
  rewrite !fmap_cons. simpl join. rewrite str_app_assoc.
  rewrite findall_bullet by done. by rewrite IH.
Qed.

Lemma findall_contributors_text users item s :
  no_at item.1 = true →
  Forall (bullet_clean users) (sorted_logins users item.2) →
  findall (contributors_text users item +:+ s)
  = sorted_logins users item.2 ++ findall s.
Proof.
  intros Hname Hl. unfold contributors_text. rewrite !str_app_assoc.
  rewrite (findall_skip (print "")) by done.
  rewrite (findall_skip (print _)) by (unfold print; no_at_parts).
  rewrite (findall_skip (print "")) by done.
  rewrite findall_bullets by done.
  by rewrite (findall_skip (print "")) by done.
Qed.

Lemma findall_new_contributors_text users old new :
  Forall (bullet_clean users) (sorted_logins users new) →
  findall (new_contributors_text users old new)
  = if new_contributors_shown old new then sorted_logins users new else [].
Proof.
  intros Hl. unfold new_contributors_text.
  destruct (new_contributors_shown old new); [|done].
  rewrite (findall_skip (print _)) by done.
  rewrite (findall_skip (print "")) by done.
  rewrite (findall_skip (print _)) by (unfold print; no_at_parts).
  rewrite (findall_skip (print "")) by done.
  rewrite <- (str_app_nil_r (join _)), findall_bullets by done.
  by rewrite findall_nil, app_nil_r.
Qed.

(** The logins of the bullets of a report, in the order of the text. *)
Definition written_logins (old : gset string) (st : state) : list string :=
  sorted_logins (users st) (authors st)
  ++ sorted_logins (users st) (reviewers st)
  ++ sorted_logins (users st) (docs_authors st)
  ++ sorted_logins (users st) (docs_reviewers st)
  ++ if new_contributors_shown old (new_contributors st old)
     then sorted_logins (users st) (new_contributors st old) else [].

Definition rendered_logins (st : state) : gset string :=
  authors st ∪ reviewers st ∪ docs_authors st ∪ docs_reviewers st.

Lemma findall_report_text milestone old st :
  no_at milestone = true →
  Forall section_clean (highlights st) →
  (∀ c, c ∈ rendered_logins st → bullet_clean (users st) c) →
  findall (report_text milestone old st) = written_logins old st.
Proof.
  intros Hm Hsections Hlogins.
  assert (∀ cs, cs ⊆ rendered_logins st →
            Forall (bullet_clean (users st)) (sorted_logins (users st) cs))
    as Hsorted.
  { intros cs Hcs. apply Forall_forall.
    intros c Hc%elem_of_sorted_logins. auto. }
  unfold report_text, written_logins, rendered_logins in *.
  rewrite findall_skip by by apply no_at_header.
  rewrite findall_skip.
  2:{ apply no_at_join, Forall_fmap.
      eapply Forall_impl; [exact Hsections|]. apply no_at_section_block. }
  unfold contributors. rewrite !fmap_cons. simpl join.
  rewrite !str_app_assoc.
  rewrite !findall_contributors_text; try done;
    try (apply Hsorted; set_solver).
  cbn [snd]. change ("" +:+ ?x) with x.
  rewrite findall_new_contributors_text; [done|].
  apply Hsorted. unfold new_contributors.
  intros c [Hc _]%elem_of_difference.
  rewrite !elem_of_union. apply elem_of_union in Hc as [?|?]; auto.
Qed.

End Rescan.

Lemma written_logins_set old st :
  list_to_set (written_logins old st) = rendered_logins st.
Proof.
  apply set_eq. intros c. unfold written_logins, rendered_logins.
  rewrite elem_of_list_to_set, !elem_of_app, !elem_of_sorted_logins,
    !elem_of_union.
  destruct (new_contributors_shown old (new_contributors st old)).
  - rewrite elem_of_sorted_logins. unfold new_contributors.
    rewrite elem_of_difference, elem_of_union. tauto.
  - rewrite elem_of_nil. tauto.
Qed.

(** C5, as amended. When the milestone, the titles of the pull requests,
    the display names of the rendered contributors and the host constants
    contain no [@], and every login of a rendered contributor set is a
    non-empty string of word characters and hyphens, the report is
    rendered and scanning it with the pattern [@([\w-]+)] yields exactly
    the logins written as bullets, in the order of the text; as a set,
    the logins of the four rendered contributor sets. *)
Theorem rescan_recovers_written_logins milestone target_directory pulls docs_pulls :
  let st := (run milestone target_directory pulls docs_pulls).2 in
  let old := old_contributors milestone target_directory in
  no_at GH = true → no_at GH_USER = true → no_at GH_REPO = true →
  no_at milestone = true →
  forallb (λ pull, no_at (title pull)) (pulls ++ docs_pulls) = true →
  forallb (λ c, login_like c
                && match users st !! c with
                   | Some display_name => no_at display_name
                   | None => true
                   end)
    (elements (authors st ∪ reviewers st ∪ docs_authors st ∪ docs_reviewers st))
  = true →
  ∃ text, render milestone old st = Returned text
          ∧ findall text = written_logins old st
          ∧ list_to_set (findall text)
            = authors st ∪ reviewers st ∪ docs_authors st ∪ docs_reviewers st.
Proof.
  intros st old HGH HGH_USER HGH_REPO Hm Htitles Hlogins.
  pose proof (covered_run milestone target_directory pulls docs_pulls) as Hcov.
  pose proof (sections_clean_run milestone target_directory pulls docs_pulls
                Htitles) as [Hsections _].
  fold st in Hcov, Hsections.
  exists (report_text milestone old st).
  split; [by apply render_Returned|].
  assert (findall (report_text milestone old st) = written_logins old st) as Hscan.
  { apply findall_report_text; try done.
    intros c Hc. rewrite forallb_forall in Hlogins.
    specialize (Hlogins c). rewrite <- list_elem_of_In, elem_of_elements in Hlogins.
    apply Hlogins, andb_true_iff in Hc as [Hlike Hname]. split; [done|].
    unfold display_name. destruct (users st !! c); [done|].
    by apply login_like_no_at. }
  split; [done|]. rewrite Hscan. apply written_logins_set.
Qed.

(** ** The correction file *)

(** Lines 59-63: [login_to_name] is the sequence under the key
    [login_to_name] of the correction file, each record a pair of its
    [login] and its [corrected_name]. *)
Definition load_corrections (login_to_name : list (string * string))
    : gmap string string :=
  foldl (λ correction_dict correction,
           <[correction.1 := correction.2]> correction_dict)
    ∅ login_to_name.

Lemma foldl_corrections_lookup (login_to_name : list (string * string))
    (d : gmap string string) l :
  foldl (λ correction_dict correction,
           <[correction.1 := correction.2]> correction_dict) d login_to_name
    !! l
  = match last (filter (λ correction, correction.1 = l) login_to_name) with
    | Some correction => Some correction.2
    | None => d !! l
    end.
Proof.
  revert d. induction login_to_name as [|[k v] rest IH]; intros d; [done|].
  simpl. rewrite IH. destruct (decide (k = l)) as [->|Hne].
  - rewrite filter_cons_True by done. rewrite last_cons.
    destruct (last (filter _ rest)); [done|]. simpl. by rewrite lookup_insert_eq.
  - rewrite filter_cons_False by done.
    destruct (last (filter _ rest)); [done|]. by rewrite lookup_insert_ne.
Qed.

(** ** More on the user directory *)

(** A correction is never overridden by a profile name or a login. *)
Definition corrections_applied (st : state) : Prop :=
  ∀ l corrected_name display_name,
    correction_dict !! l = Some corrected_name →
    users st !! l = Some display_name →
    display_name = corrected_name.

Lemma corrections_applied_invariant :
  step_invariant (λ _, True) corrections_applied.
Proof.
  apply step_invariant_intro; try done.
  - intros u st Hst l c n Hc. simpl. rewrite add_to_users_unfold.
    destruct (users st !! login u) eqn:Hu; [by apply Hst|].
    destruct (decide (login u = l)) as [<-|Hne].
    + rewrite lookup_insert_eq. unfold stored_name. rewrite Hc. congruence.
    + rewrite lookup_insert_ne by done. by apply Hst.
  - intros pull _. apply preserves_for_each_with. intros b [label_name section].
    simpl. case_decide; [|apply preserves_ret].
    apply preserves_bind; [|intros; apply preserves_ret].
    by apply preserves_highlights_set.
  - intros pull r _ _. by apply preserves_modify.
  - intros pull _. by apply preserves_highlights_set.
Qed.

(** X2. In every run, at every login of [users] that is a key of the
    correction table, [users] holds the corrected name, whatever profile
    names the user objects of that login carry and in whatever order they
    are met. *)
Theorem corrections_always_applied milestone target_directory pulls docs_pulls :
  let st := (run milestone target_directory pulls docs_pulls).2 in
  map_Forall (λ l display_name,
                match correction_dict !! l with
                | Some corrected_name => display_name = corrected_name
                | None => True
                end) (users st).
Proof.
  intros st l display_name Hl.
  destruct (correction_dict !! l) as [c|] eqn:Hc; [|done].
  revert l c display_name Hc Hl.
  apply (preserves_main (λ _, True) corrections_applied);
    [apply corrections_applied_invariant | apply Forall_any | apply Forall_any |].
  intros l c n _. simpl. by rewrite lookup_empty.
Qed.

(** [users] holds nobody but the recorded contributors: a key of [users]
    is in a role set, or was removed from one as a bot. *)
Definition users_are_contributors (st : state) : Prop :=
  dom (users st)
  ⊆ committers st ∪ authors st ∪ reviewers st ∪ docs_authors st
    ∪ docs_reviewers st ∪ BOT_LIST.

Ltac contributors_record :=
  let u := fresh "u" in
  let st := fresh "st" in
  let H := fresh "H" in
  let x := fresh "x" in
  let Hx := fresh "Hx" in
  intros u st H x; simpl; rewrite add_to_users_unfold;
  destruct (users st !! login u) eqn:?;
    [ intros Hx; apply H in Hx; revert Hx; rewrite !elem_of_union; tauto
    | rewrite dom_insert_L, elem_of_union, elem_of_singleton;
      intros [->|Hx];
        [ rewrite !elem_of_union, elem_of_singleton; tauto
        | apply H in Hx; revert Hx; rewrite !elem_of_union; tauto ] ].

Lemma users_are_contributors_invariant :
  step_invariant (λ _, True) users_are_contributors.
Proof.
  split.
  - contributors_record.
  - contributors_record.
  - contributors_record.
  - contributors_record.
  - contributors_record.
  - intros pull _. apply preserves_for_each_with. intros b [label_name section].
    simpl. case_decide; [|apply preserves_ret].
    apply preserves_bind; [|intros; apply preserves_ret].
    by apply preserves_highlights_set.
  - intros pull r _ _. by apply preserves_modify.
  - intros pull _. by apply preserves_highlights_set.
  - intros st H x Hx. apply H in Hx. revert Hx. simpl.
    rewrite !elem_of_union, !elem_of_difference.
    destruct (decide (x ∈ BOT_LIST)); tauto.
Qed.

(** X14. At the end of every run each key of [users] is in one of the
    role sets (committers, authors, reviewers, docs authors, docs
    reviewers) or is a bot that was removed from them: the directory holds
    nobody who was not recorded as a contributor. *)
Theorem users_only_contributors milestone target_directory pulls docs_pulls :
  let st := (run milestone target_directory pulls docs_pulls).2 in
  dom (users st)
  ⊆ committers st ∪ authors st ∪ reviewers st ∪ docs_authors st
    ∪ docs_reviewers st ∪ BOT_LIST.
Proof.
  apply (preserves_main (λ _, True) users_are_contributors);
    [apply users_are_contributors_invariant | apply Forall_any | apply Forall_any |].
  unfold users_are_contributors. simpl. by rewrite dom_empty_L.
Qed.

(** ** The end of a run that returns *)

(** The state in which the two loops end, when every pull request is
    merged; [finish_collection] runs from it. *)
Lemma run_returned_state milestone target_directory pulls docs_pulls :
  forallb merged (pulls ++ docs_pulls) = true →
  ∃ st1 st2,
    for_each pulls process_pull initial_state = (Returned (), st1)
    ∧ for_each docs_pulls process_docs_pull st1 = (Returned (), st2)
    ∧ sections_in_place st1 ∧ sections_in_place st2
    ∧ (run milestone target_directory pulls docs_pulls).2
      = (finish_collection st2).2.
Proof.
  rewrite forallb_app. intros [Hpulls Hdocs]%andb_true_iff.
  unfold run. rewrite main_state. unfold collect, mbind, M_mbind, M_bind.
  destruct (for_each_merged process_pull pulls initial_state
              total_process_pull process_pull_unmerged eq_refl) as [Hst1 Hr1].
  rewrite Hpulls in Hr1.
  destruct (for_each pulls process_pull initial_state) as [o1 st1].
  simpl in Hst1, Hr1. subst o1.
  destruct (for_each_merged process_docs_pull docs_pulls st1
              total_process_docs_pull process_docs_pull_unmerged Hst1) as [Hst2 Hr2].
  rewrite Hdocs in Hr2.
  destruct (for_each docs_pulls process_docs_pull st1) as [o2 st2] eqn:Hrun2.
  simpl in Hst2, Hr2. subst o2.
  by exists st1, st2.
Qed.

(** *** File operations that fail *)

Lemma is_prior_report_spec milestone name :
  is_prior_report milestone name = true
  ↔ fnmatch_star "release_" ".md" name = true ∧ name ≠ res_file_name milestone.
Proof.
  unfold is_prior_report.
  rewrite andb_true_iff, negb_true_iff, String.eqb_neq. done.
Qed.

Lemma scan_reports_readable milestone directory old :
  scan_reports milestone ((λ f, (f.1, Returned f.2)) <$> directory) old
  = Returned (foldl (λ old f, old ∪ list_to_set (findall f.2)) old
                (prior_reports milestone directory)).
Proof.
  unfold prior_reports, glob_reports.
  revert old. induction directory as [|[name content] directory IH];
    intros old; [done|].
  rewrite fmap_cons. cbn [scan_reports fst snd].
  destruct (is_prior_report milestone name) eqn:Hp.
  - apply is_prior_report_spec in Hp as [Hglob Hown].
    rewrite (filter_cons_True _ (name, content)) by done.
    rewrite (filter_cons_True _ (name, content)) by done.
    simpl. apply IH.
  - destruct (fnmatch_star "release_" ".md" name) eqn:Hglob.
    + rewrite (filter_cons_True _ (name, content)) by done.
      rewrite (filter_cons_False _ (name, content)); [apply IH|].
      simpl. intros Hown. apply Hown. apply String.eqb_eq.
      unfold is_prior_report in Hp. rewrite Hglob in Hp.
      by destruct (String.eqb name (res_file_name milestone)).
    + rewrite (filter_cons_False _ (name, content)); [apply IH|].
      simpl. congruence.
Qed.

Lemma read_old_contributors_readable milestone target_directory :
  read_old_contributors milestone (readable <$> target_directory)
  = Returned (old_contributors milestone target_directory).
Proof.
  destruct target_directory as [directory|]; [|done].
  apply scan_reports_readable.
Qed.

(** When every file operation succeeds, the run is [run]. *)
Lemma run_files_readable milestone target_directory pulls docs_pulls :
  run_files milestone (readable <$> target_directory) pulls docs_pulls
  = run milestone target_directory pulls docs_pulls.
Proof.
  unfold run_files, run, main_files, main.
  rewrite read_old_contributors_readable.
  by destruct target_directory.
Qed.

(** The files that are read can all be read. *)
Definition reports_readable (milestone : string)
    (files : list (string * outcome string)) : Prop :=
  Forall (λ f, is_prior_report milestone f.1 = true → ∃ content, f.2 = Returned content)
    files.

Lemma scan_reports_Returned milestone files old :
  reports_readable milestone files →
  ∃ old', scan_reports milestone files old = Returned old'.
Proof.
  intros Hfiles. revert old.
  induction Hfiles as [|[name read] files Hf _ IH]; intros old;
    cbn [scan_reports].
  - by eexists.
  - cbn [fst snd] in Hf.
    destruct (is_prior_report milestone name); [|apply IH].
    destruct (Hf eq_refl) as [content ->]. apply IH.
Qed.

Lemma scan_reports_Raised milestone before name e after old :
  reports_readable milestone before →
  is_prior_report milestone name = true →
  scan_reports milestone (before ++ (name, Raised e) :: after) old = Raised e.
Proof.
  intros Hbefore Hname. revert old.
  induction Hbefore as [|[name' read] files Hf _ IH]; intros old;
    cbn [scan_reports app].
  - by rewrite Hname.
  - cbn [fst snd] in Hf.
    destruct (is_prior_report milestone name'); [|apply IH].
    destruct (Hf eq_refl) as [content ->]. apply IH.
Qed.

Lemma scan_reports_outcome milestone files old :
  match scan_reports milestone files old with
  | Returned _ => reports_readable milestone files
  | Raised e =>
      ∃ before name after,
        files = before ++ (name, Raised e) :: after
        ∧ reports_readable milestone before
        ∧ is_prior_report milestone name = true
  end.
Proof.
  revert old. induction files as [|[name read] files IH]; intros old; simpl.
  - constructor.
  - destruct (is_prior_report milestone name) eqn:Hname.
    + destruct read as [content|e].
      * specialize (IH (old ∪ list_to_set (findall content))).
        destruct (scan_reports milestone files _) as [old'|e].
        -- constructor; [|done]. by eexists.
        -- destruct IH as (before & name' & after & -> & Hb & Hn).
           exists ((name, Returned content) :: before), name', after.
           repeat split; [|done]. constructor; [|done]. by eexists.
      * exists [], name, files. repeat split; [|done]. constructor.
    + specialize (IH old).
      destruct (scan_reports milestone files old) as [old'|e].
      * constructor; [|done]. simpl. congruence.
      * destruct IH as (before & name' & after & -> & Hb & Hn).
        exists ((name, read) :: before), name', after.
        repeat split; [|done]. constructor; [|done]. simpl. congruence.
Qed.

Lemma main_files_state milestone target_directory pulls docs_pulls st :
  (main_files milestone target_directory pulls docs_pulls st).2
  = (collect pulls docs_pulls st).2.
Proof.
  unfold main_files, mbind, M_mbind, M_bind.
  destruct (collect pulls docs_pulls st) as [[[]|e] st']; simpl; [|done].
  destruct (read_old_contributors _ _); [|done]. simpl.
  by destruct (render _ _ st').
Qed.

(** What a run returns or raises, with its file operations. *)
Lemma run_files_outcome milestone target_directory pulls docs_pulls :
  (run_files milestone target_directory pulls docs_pulls).1
  = if forallb merged (pulls ++ docs_pulls) then
      match read_old_contributors milestone target_directory with
      | Returned old =>
          Returned
            {| file := (λ _, res_file_name milestone) <$> target_directory;
               text := report_text milestone old
                         (run_files milestone target_directory
                            pulls docs_pulls).2 |}
      | Raised e => Raised e
      end
    else Raised AssertionError.
Proof.
  assert (covered (collect pulls docs_pulls initial_state).2) as Hcov.
  { apply (preserves_collect (λ _, True) covered);
      [apply covered_invariant | apply Forall_any | apply Forall_any |].
    repeat split; simpl; apply empty_subseteq. }
  revert Hcov. unfold run_files. rewrite main_files_state.
  pose proof (collect_outcome pulls docs_pulls) as Hc. revert Hc.
  unfold main_files, mbind, M_mbind, M_bind.
  destruct (collect pulls docs_pulls initial_state) as [o st]. simpl.
  intros -> Hcov. destruct (forallb merged (pulls ++ docs_pulls)); [|done].
  destruct (read_old_contributors _ _) as [old|e]; [|done].
  simpl. by rewrite render_Returned.
Qed.

(** X15. How a run ends, the file operations of lines 187-192 being able
    to fail.  When a pull request of either query result is not merged the
    run raises [AssertionError], whatever the files.  When all are merged,
    the run returns a report exactly when the files can be used: there is
    no target directory, or the report file opens for writing and every
    earlier report that is read can be read.  Otherwise it raises what
    opening the report file raised, or what the first earlier report that
    cannot be read raised, and the reports listed after that one are not
    read.  Nothing else is raised: every section of [label_to_section] and
    "Documentation" is a key of [highlights] and every rendered login is a
    key of [users].  A run whose file operations all succeed is [run]. *)
Theorem run_files_ends milestone target_directory pulls docs_pulls :
  let result := (run_files milestone target_directory pulls docs_pulls).1 in
  (forallb merged (pulls ++ docs_pulls) = false →
     result = Raised AssertionError)
  ∧ (forallb merged (pulls ++ docs_pulls) = true →
     ((∃ report, result = Returned report)
      ↔ (∀ directory, target_directory = Some directory →
           open_report directory = None
           ∧ reports_readable milestone (listing directory)))
     ∧ (∀ directory e,
          target_directory = Some directory →
          open_report directory = Some e →
          result = Raised e)
     ∧ (∀ directory before name e after,
          target_directory = Some directory →
          open_report directory = None →
          listing directory = before ++ (name, Raised e) :: after →
          reports_readable milestone before →
          is_prior_report milestone name = true →
          result = Raised e))
  ∧ (∀ directory,
       run_files milestone (readable <$> directory) pulls docs_pulls
       = run milestone directory pulls docs_pulls).
Proof.
  cbv zeta. rewrite run_files_outcome.
  split; [by intros ->|]. split; [|intros; apply run_files_readable].
  intros ->. split; [|split].
  - destruct target_directory as [directory|]; simpl.
    2:{ split; [by intros _ ? ?|]. intros _. by eexists. }
    destruct (open_report directory) as [e|] eqn:Hopen.
    { split; [by intros [? ?]|]. intros H.
      destruct (H directory eq_refl) as [Hnone _]. congruence. }
    pose proof (scan_reports_outcome milestone (listing directory) ∅) as Hs.
    destruct (scan_reports milestone (listing directory) ∅) as [old|e].
    + split; [|by intros _; eexists]. intros _ d [= <-]. by rewrite Hopen.
    + split; [by intros [? ?]|]. intros H.
      destruct (H directory eq_refl) as [_ Hread].
      destruct (scan_reports_Returned milestone _ ∅ Hread) as [old Hold].
      destruct Hs as (before & name & after & Hl & Hb & Hn).
      rewrite Hl in Hold.
      by rewrite (scan_reports_Raised _ _ _ _ _ _ Hb Hn) in Hold.
  - intros directory e -> Hopen. simpl. by rewrite Hopen.
  - intros directory before name e after -> Hopen Hl Hb Hn. simpl.
    by rewrite Hopen, Hl, (scan_reports_Raised _ _ _ _ _ _ Hb Hn).
Qed.

Lemma keys_set_item_new {K V} `{EqDecision K} (k : K) (v : V) (d : list (K * V)) :
  k ∉ keys d → keys (set_item k v d) = keys d ++ [k].
Proof.
  unfold keys. induction d as [|[k' v'] d IH]; simpl; [done|].
  rewrite not_elem_of_cons. intros [Hne Hk].
  rewrite decide_False by done. rewrite fmap_cons. simpl. f_equal. by apply IH.
Qed.

(** X4. When a run returns, [highlights] has the ten sections in the
    order of lines 88-96 followed by "Other Pull Requests", whatever pull
    requests were processed, and the last section is the dictionary
    [other_pull_requests]. *)
Theorem sections_in_fixed_order milestone target_directory pulls docs_pulls :
  forallb merged (pulls ++ docs_pulls) = true →
  let st := (run milestone target_directory pulls docs_pulls).2 in
  keys (highlights st)
  = ["Highlights"; "New Features"; "Improvements"; "Performance"; "Bug Fixes";
     "API Changes"; "Deprecations"; "Build Tools"; "Documentation";
     "Other Pull Requests"]
  ∧ get_item "Other Pull Requests" (highlights st)
    = Some (other_pull_requests st).
Proof.
  intros Hmerged.
  destruct (run_returned_state milestone target_directory pulls docs_pulls Hmerged)
    as (st1 & st2 & _ & _ & _ & Hst2 & ->).
  simpl. split.
  - rewrite keys_set_item_new; rewrite Hst2; [done|].
    unfold keys. simpl. rewrite !not_elem_of_cons. by repeat split; try apply not_elem_of_nil.
  - rewrite get_item_set_item. by rewrite decide_True.
Qed.

(** X7. When a run returns, no login of [BOT_LIST] is among the authors,
    the docs authors, the committers or the new contributors. *)
Theorem bots_removed_from_authors milestone target_directory pulls docs_pulls :
  forallb merged (pulls ++ docs_pulls) = true →
  let st := (run milestone target_directory pulls docs_pulls).2 in
  authors st ## BOT_LIST ∧ docs_authors st ## BOT_LIST
  ∧ committers st ## BOT_LIST
  ∧ new_contributors st (old_contributors milestone target_directory) ## BOT_LIST.
Proof.
  intros Hmerged.
  destruct (run_returned_state milestone target_directory pulls docs_pulls Hmerged)
    as (st1 & st2 & _ & _ & _ & _ & ->).
  cbv zeta. unfold new_contributors.
  destruct (finish_collection_bots st2) as (-> & -> & -> & _).
  repeat split; intros x; rewrite ?elem_of_difference, ?elem_of_union,
    ?elem_of_difference; tauto.
Qed.

(** ** The entries of the sections *)

Lemma NoDup_keys_set_item {K V} `{EqDecision K} (k : K) (v : V) (d : list (K * V)) :
  NoDup (keys d) → NoDup (keys (set_item k v d)).
Proof.
  unfold keys. induction d as [|[k' v'] d IH]; simpl.
  - intros _. apply NoDup_singleton.
  - rewrite NoDup_cons. intros [Hk' Hd].
    destruct (decide (k = k')) as [->|Hne]; simpl.
    + by apply NoDup_cons.
    + apply NoDup_cons. split; [|by apply IH].
      intros [?|?]%(elem_of_keys_set_item (V:=V)); [congruence|done].
Qed.

(** No section lists a number twice, and no section name occurs twice. *)
Definition sections_unique (st : state) : Prop :=
  NoDup (keys (highlights st))
  ∧ Forall (λ item, NoDup (keys item.2)) (highlights st)
  ∧ NoDup (keys (other_pull_requests st)).

Lemma sections_unique_highlights_set section number info :
  preserves sections_unique (highlights_set section number info).
Proof.
  intros st (Hnames & Hsections & Hother).
  unfold highlights_set, mbind, M_mbind, M_bind. simpl.
  destruct (get_item section (highlights st)) as [d|] eqn:Hd; [|done].
  simpl. split; [by apply NoDup_keys_set_item|]. split; [|done]. simpl.
  apply Forall_set_item; [done|]. simpl. apply NoDup_keys_set_item.
  exact (get_item_Forall (λ item, NoDup (keys item.2)) _ _ _ Hsections Hd).
Qed.

Lemma sections_unique_invariant : step_invariant (λ _, True) sections_unique.
Proof.
  apply step_invariant_intro; try done.
  - intros u. by apply preserves_modify.
  - intros pull _. apply preserves_for_each_with.
    intros b [label_name section]. simpl. case_decide; [|apply preserves_ret].
    apply preserves_bind; [|intros; apply preserves_ret].
    apply sections_unique_highlights_set.
  - intros pull r _ _. apply preserves_modify. intros st (? & ? & ?).
    repeat split; try done. simpl. by apply NoDup_keys_set_item.
  - intros pull _. apply sections_unique_highlights_set.
  - intros st (? & ? & ?). repeat split; try done; simpl.
    + by apply NoDup_keys_set_item.
    + by apply Forall_set_item.
Qed.

(** X5. At the end of every run no section lists a pull-request number
    twice and no section name occurs twice, also when a pull request is
    yielded twice or the two repositories use the same number. *)
Theorem sections_list_each_number_once milestone target_directory pulls docs_pulls :
  let st := (run milestone target_directory pulls docs_pulls).2 in
  NoDup (keys (highlights st))
  ∧ Forall (λ item, NoDup (keys item.2)) (highlights st).
Proof.
  intros st.
  assert (sections_unique st) as (? & ? & _); [|done].
  apply (preserves_main (λ _, True) sections_unique);
    [apply sections_unique_invariant | apply Forall_any | apply Forall_any |].
  repeat split; simpl.
  - apply (bool_decide_unpack _). by vm_compute.
  - repeat constructor.
  - constructor.
Qed.

(** Every entry of every section satisfies [Q]. *)
Definition entries_all (Q : Z * Info → Prop) (st : state) : Prop :=
  Forall (λ item, Forall Q item.2) (highlights st)
  ∧ Forall Q (other_pull_requests st).

Lemma entries_all_highlights_set Q section number info :
  Q (number, info) →
  preserves (entries_all Q) (highlights_set section number info).
Proof.
  intros HQ st [Hhl Hother]. unfold highlights_set, mbind, M_mbind, M_bind.
  simpl. destruct (get_item section (highlights st)) as [d|] eqn:Hd; [|done].
  simpl. split; [|done]. simpl.
  apply Forall_set_item; [done|]. simpl. apply Forall_set_item; [|done].
  exact (get_item_Forall (λ item, Forall Q item.2) _ _ _ Hhl Hd).
Qed.

Lemma entries_all_invariant (P : PullRequest → Prop) (Q : Z * Info → Prop) :
  (∀ pull r, P pull → r = "napari" ∨ r = "docs" →
             Q (number pull, {| summary := title pull; repo := r |})) →
  step_invariant P (entries_all Q).
Proof.
  intros HQ. apply step_invariant_intro; try done.
  - intros u. by apply preserves_modify.
  - intros pull HP. apply preserves_for_each_with.
    intros b [label_name section]. simpl. case_decide; [|apply preserves_ret].
    apply preserves_bind; [|intros; apply preserves_ret].
    apply entries_all_highlights_set. apply HQ; auto.
  - intros pull r HP Hr. apply preserves_modify. intros st [Hhl Hother].
    split; [done|]. simpl. apply Forall_set_item; [done|]. by apply HQ.
  - intros pull HP. apply entries_all_highlights_set. apply HQ; auto.
  - intros st [Hhl Hother]. split; [|done]. simpl. by apply Forall_set_item.
Qed.

(** X12. At the end of every run each entry of each section has the
    number and, as summary, the title of a pull request that one of the two
    queries yielded, and its repo label is "napari" or "docs". *)
Theorem entries_are_input_pulls milestone target_directory pulls docs_pulls :
  let st := (run milestone target_directory pulls docs_pulls).2 in
  Forall (λ item,
    Forall (λ entry,
      ∃ pull, pull ∈ pulls ++ docs_pulls
              ∧ entry.1 = number pull
              ∧ summary entry.2 = title pull
              ∧ (repo entry.2 = "napari" ∨ repo entry.2 = "docs")) item.2)
    (highlights st).
Proof.
  intros st.
  set (Q := λ entry : Z * Info,
         ∃ pull, pull ∈ pulls ++ docs_pulls
                 ∧ entry.1 = number pull
                 ∧ summary entry.2 = title pull
                 ∧ (repo entry.2 = "napari" ∨ repo entry.2 = "docs")).
  assert (entries_all Q st) as [? _]; [|done].
  apply (preserves_main (λ pull, pull ∈ pulls ++ docs_pulls) (entries_all Q)).
  - apply entries_all_invariant. intros pull r Hin Hr. by exists pull.
  - apply Forall_forall. intros pull Hin. apply elem_of_app. by left.
  - apply Forall_forall. intros pull Hin. apply elem_of_app. by right.
  - split; [|constructor]. repeat constructor.
Qed.

(** ** Classification of the docs repository *)

(** Lines 160-165 of the loop over the docs repository. *)
Definition classify_docs (pull : PullRequest) : M unit :=
  if decide ("maintenance" ∈ pr_lables pull) then
    modify (with_other_pull_requests
              (set_item (number pull)
                 {| summary := title pull; repo := "docs" |}))
  else
    highlights_set "Documentation" (number pull)
      {| summary := title pull; repo := "docs" |}.

Lemma process_docs_pull_classify pull st :
  merged pull = true →
  ∃ st1, sections_are (highlights st) (other_pull_requests st) st1
         ∧ process_docs_pull pull st = classify_docs pull st1.
Proof.
  intros Hm. unfold process_docs_pull. rewrite Hm.
  set (I := sections_are (highlights st) (other_pull_requests st)).
  assert (I st) as Hst by done.
  change ((assert_ true ≫= ?f) st) with (f () st). cbv beta.
  lazymatch goal with
  | |- ∃ st', _ ∧ (?m ≫= ?f) st = _ =>
      destruct (bind_total I m f st) as (_ & st1 & Hst1 & ->); [|exact Hst|]
  end.
  { by apply total_modify. }
  lazymatch goal with
  | |- ∃ st', _ ∧ (?m ≫= ?f) st1 = _ =>
      destruct (bind_total I m f st1) as (_ & st2 & Hst2 & ->); [|exact Hst1|]
  end.
  { by apply total_modify. }
  lazymatch goal with
  | |- ∃ st', _ ∧ (?m ≫= ?f) st2 = _ =>
      destruct (bind_total I m f st2) as (_ & st3 & Hst3 & ->); [|exact Hst2|]
  end.
  { apply total_for_each. intros review _. apply total_when. intros u.
    by apply total_record_sections. }
  by exists st3.
Qed.

Lemma Documentation_in_place : "Documentation" ∈ keys initial_highlights.
Proof. by apply (list_elem_of_lookup_2 _ 8). Qed.

(** X3. A merged pull request of the docs repository is added to
    [other_pull_requests] when "maintenance" is among its lower-cased
    labels and otherwise to "Documentation"; it is added to no other
    section, whatever other labels it has ([label_to_section] is not
    consulted), and no other entry appears. *)
Theorem docs_pull_classification pull st :
  merged pull = true →
  sections_in_place st →
  let st' := (process_docs_pull pull st).2 in
  (∀ section n,
      filed section n (highlights st')
      ↔ filed section n (highlights st)
        ∨ (section = "Documentation" ∧ n = number pull
           ∧ "maintenance" ∉ pr_lables pull))
  ∧ (∀ n, n ∈ keys (other_pull_requests st')
          ↔ n ∈ keys (other_pull_requests st)
            ∨ (n = number pull ∧ "maintenance" ∈ pr_lables pull)).
Proof.
  intros Hm Hst.
  destruct (process_docs_pull_classify pull st Hm) as (st1 & [Hh Ho] & Hrun).
  cbv zeta. rewrite Hrun. clear Hrun. unfold classify_docs.
  destruct (decide ("maintenance" ∈ pr_lables pull)) as [Hl|Hl].
  - unfold modify. cbn [fst snd with_other_pull_requests other_pull_requests highlights].
    rewrite Hh, Ho. split.
    + intros section n. split; [by left | by intros [?|(_ & _ & ?)]].
    + intros n. rewrite elem_of_keys_set_item. split.
      * intros [->|?]; [by right | by left].
      * intros [?|[-> _]]; [by right | by left].
  - assert ("Documentation" ∈ keys (highlights st1)) as Hin.
    { rewrite Hh, Hst. apply Documentation_in_place. }
    destruct (get_item_is_Some "Documentation" (highlights st1))
      as [_ [d Hd]]; [done|].
    unfold highlights_set, mbind, M_mbind, M_bind, gets, modify. simpl.
    rewrite Hd. simpl. split.
    + intros section n. rewrite filed_set_item by done. rewrite Hh.
      split; [intros [?|[-> ->]]; [by left | by right] | ].
      intros [?|(-> & -> & _)]; [by left | by right].
    + intros n. rewrite Ho. split; [by left | by intros [?|[_ ?]]].
Qed.

(** ** What one pull request records *)

(** The login of a user object that may be [None]. *)
Definition logins_of (o : option User) : gset string :=
  match o with
  | Some u => {[login u]}
  | None => ∅
  end.

(** The logins of the reviews of a pull request that have a user. *)
Definition review_logins (pull : PullRequest) : gset string :=
  ⋃ ((λ review, logins_of (user review)) <$> get_reviews pull).

(** [add_to_users] and the update [f u] for a user that is not [None]. *)
Definition record_as (f : User → state → state) (o : option User) (st : state)
    : state :=
  match o with
  | Some u =>
      f u (with_users (λ us, add_to_users us u) (resolutions (users st) u) st)
  | None => st
  end.

Lemma when_record f (o : option User) st :
  when_not_None o (λ u, call_add_to_users u;; modify (f u)) st
  = (Returned (), record_as f o st).
Proof. by destruct o. Qed.

Lemma for_each_record f (reviews : list Review) st :
  for_each reviews (λ review,
    when_not_None (user review) (λ u, call_add_to_users u;; modify (f u))) st
  = (Returned (), foldl (λ st review, record_as f (user review) st) st reviews).
Proof.
  revert st. induction reviews as [|review reviews IH]; intros st; [done|].
  simpl. unfold mbind, M_mbind at 1, M_bind at 1.
  rewrite when_record. apply IH.
Qed.

Lemma process_pull_record pull st :
  merged pull = true →
  process_pull pull st
  = classify pull
      (foldl (λ st review,
                record_as (λ u, with_reviewers (λ s, s ∪ {[login u]}))
                  (user review) st)
         (record_as (λ u, with_authors (λ s, s ∪ {[login u]}))
            (author (merge_commit pull))
            (record_as (λ u, with_committers (λ s, s ∪ {[login u]}))
               (committer (merge_commit pull)) st))
         (get_reviews pull)).
Proof.
  intros Hm. unfold process_pull. rewrite Hm.
  change ((assert_ true ≫= ?f) st) with (f () st). cbv beta.
  unfold mbind at 1, M_mbind at 1, M_bind at 1.
  rewrite (when_record (λ u, with_committers (λ s, s ∪ {[login u]}))).
  unfold mbind at 1, M_mbind at 1, M_bind at 1.
  rewrite (when_record (λ u, with_authors (λ s, s ∪ {[login u]}))).
  unfold mbind at 1, M_mbind at 1, M_bind at 1.
  by rewrite (for_each_record (λ u, with_reviewers (λ s, s ∪ {[login u]}))).
Qed.

Lemma process_docs_pull_record pull st :
  merged pull = true →
  process_docs_pull pull st
  = classify_docs pull
      (foldl (λ st review,
                record_as (λ u, with_docs_reviewers (λ s, s ∪ {[login u]}))
                  (user review) st)
         (record_as (λ u, with_docs_authors (λ s, s ∪ {[login u]}))
            (Some (issue_user pull)) st)
         (get_reviews pull)).
Proof.
  intros Hm. unfold process_docs_pull. rewrite Hm.
  change ((assert_ true ≫= ?f) st) with (f () st). cbv beta.
  change ((call_add_to_users ?u ≫= ?f) st)
    with (f () (with_users (λ us, add_to_users us u)
                  (resolutions (users st) u) st)). cbv beta.
  change ((modify ?g ≫= ?f) ?s) with (f () (g s)). cbv beta.
  unfold mbind at 1, M_mbind at 1, M_bind at 1.
  by rewrite (for_each_record (λ u, with_docs_reviewers (λ s, s ∪ {[login u]}))).
Qed.

Lemma add_to_users_dom_eq users new_user :
  dom (add_to_users users new_user) = dom users ∪ {[login new_user]}.
Proof.
  rewrite add_to_users_unfold. destruct (users !! login new_user) eqn:Hu.
  - apply elem_of_dom_2 in Hu. apply set_eq. intros x.
    rewrite elem_of_union, elem_of_singleton. split; [tauto|].
    by intros [?| ->].
  - rewrite dom_insert_L. apply set_eq. intros x.
    rewrite !elem_of_union, elem_of_singleton. tauto.
Qed.

(** The role sets and the keys of [users]. *)
Definition recorded (st : state) :=
  (committers st, authors st, reviewers st, docs_committers st,
   docs_authors st, docs_reviewers st, dom (users st)).

Ltac set_eq_tauto :=
  apply set_eq; intros ?;
  rewrite ?elem_of_union, ?elem_of_singleton, ?elem_of_empty; tauto.

Ltac recorded_eq :=
  repeat match goal with |- (_, _) = (_, _) => apply (f_equal2 pair) end;
  try reflexivity; set_eq_tauto.

Lemma foldl_record_reviewers (reviews : list Review) st :
  recorded (foldl (λ st review,
                     record_as (λ u, with_reviewers (λ s, s ∪ {[login u]}))
                       (user review) st) st reviews)
  = (committers st, authors st,
     reviewers st ∪ ⋃ ((λ review, logins_of (user review)) <$> reviews),
     docs_committers st, docs_authors st, docs_reviewers st,
     dom (users st) ∪ ⋃ ((λ review, logins_of (user review)) <$> reviews)).
Proof.
  revert st. induction reviews as [|review reviews IH]; intros st.
  - unfold recorded. simpl. recorded_eq.
  - simpl foldl. rewrite IH. rewrite fmap_cons. simpl union_list.
    destruct (user review) as [u|]; simpl.
    + rewrite add_to_users_dom_eq. recorded_eq.
    + recorded_eq.
Qed.

Lemma foldl_record_docs_reviewers (reviews : list Review) st :
  recorded (foldl (λ st review,
                     record_as (λ u, with_docs_reviewers (λ s, s ∪ {[login u]}))
                       (user review) st) st reviews)
  = (committers st, authors st, reviewers st, docs_committers st,
     docs_authors st,
     docs_reviewers st ∪ ⋃ ((λ review, logins_of (user review)) <$> reviews),
     dom (users st) ∪ ⋃ ((λ review, logins_of (user review)) <$> reviews)).
Proof.
  revert st. induction reviews as [|review reviews IH]; intros st.
  - unfold recorded. simpl. recorded_eq.
  - simpl foldl. rewrite IH. rewrite fmap_cons. simpl union_list.
    destruct (user review) as [u|]; simpl.
    + rewrite add_to_users_dom_eq. recorded_eq.
    + recorded_eq.
Qed.

(** Filing a pull request records nobody. *)
Lemma highlights_set_recorded r section number info :
  preserves (λ st, recorded st = r) (highlights_set section number info).
Proof. apply preserves_highlights_set. by intros k v st. Qed.

Lemma classify_recorded pull st : recorded (classify pull st).2 = recorded st.
Proof.
  assert (preserves (λ s, recorded s = recorded st) (classify pull)) as H;
    [|by apply H].
  generalize (recorded st). intros r.
  unfold classify. apply preserves_bind.
  - apply preserves_for_each_with. intros b [label_name section]. simpl.
    case_decide; [|apply preserves_ret].
    apply preserves_bind; [|intros; apply preserves_ret].
    apply highlights_set_recorded.
  - intros [|]; [apply preserves_ret | by apply preserves_modify].
Qed.

Lemma classify_docs_recorded pull st :
  recorded (classify_docs pull st).2 = recorded st.
Proof.
  assert (preserves (λ s, recorded s = recorded st) (classify_docs pull)) as H;
    [|by apply H].
  generalize (recorded st). intros r.
  unfold classify_docs. case_decide.
  - by apply preserves_modify.
  - apply highlights_set_recorded.
Qed.

(** X10. Processing a merged pull request of the main repository adds
    the committer's login to [committers] and the author's login to
    [authors], each only when the user object is not [None], and the login
    of each review whose user is not [None] to [reviewers]; the docs sets
    are untouched, and [users] gains exactly these logins as keys. *)
Theorem process_pull_records pull st :
  merged pull = true →
  let st' := (process_pull pull st).2 in
  committers st' = committers st ∪ logins_of (committer (merge_commit pull))
  ∧ authors st' = authors st ∪ logins_of (author (merge_commit pull))
  ∧ reviewers st' = reviewers st ∪ review_logins pull
  ∧ docs_committers st' = docs_committers st
  ∧ docs_authors st' = docs_authors st
  ∧ docs_reviewers st' = docs_reviewers st
  ∧ dom (users st')
    = dom (users st) ∪ logins_of (committer (merge_commit pull))
      ∪ logins_of (author (merge_commit pull)) ∪ review_logins pull.
Proof.
  intros Hm. cbv zeta. rewrite process_pull_record by done.
  pose proof (classify_recorded pull) as Hc. unfold recorded in Hc.
  match goal with |- context [classify pull ?s] =>
    specialize (Hc s); injection Hc as -> -> -> -> -> -> -> end.
  pose proof (foldl_record_reviewers (get_reviews pull)) as Hf.
  unfold recorded in Hf.
  match goal with |- context [foldl ?f ?s (get_reviews pull)] =>
    specialize (Hf s); injection Hf as -> -> -> -> -> -> -> end.
  unfold review_logins.
  destruct (committer (merge_commit pull)) as [c|],
           (author (merge_commit pull)) as [a|]; simpl;
    rewrite ?add_to_users_dom_eq; repeat split; set_eq_tauto.
Qed.

(** X11. Processing a merged pull request of the docs repository adds
    the login of the user of its issue to [docs_authors] and the login of
    each review whose user is not [None] to [docs_reviewers]; the sets of
    the main repository and [docs_committers] are untouched, and [users]
    gains exactly these logins as keys. *)
Theorem process_docs_pull_records pull st :
  merged pull = true →
  let st' := (process_docs_pull pull st).2 in
  docs_authors st' = docs_authors st ∪ {[login (issue_user pull)]}
  ∧ docs_reviewers st' = docs_reviewers st ∪ review_logins pull
  ∧ committers st' = committers st
  ∧ authors st' = authors st
  ∧ reviewers st' = reviewers st
  ∧ docs_committers st' = docs_committers st
  ∧ dom (users st')
    = dom (users st) ∪ {[login (issue_user pull)]} ∪ review_logins pull.
Proof.
  intros Hm. cbv zeta. rewrite process_docs_pull_record by done.
  cbn [record_as].
  pose proof (classify_docs_recorded pull) as Hc. unfold recorded in Hc.
  match goal with |- context [classify_docs pull ?s] =>
    specialize (Hc s); injection Hc as -> -> -> -> -> -> -> end.
  pose proof (foldl_record_docs_reviewers (get_reviews pull)) as Hf.
  unfold recorded in Hf.
  match goal with |- context [foldl ?f ?s (get_reviews pull)] =>
    specialize (Hf s); injection Hf as -> -> -> -> -> -> -> end.
  unfold review_logins. simpl.
  rewrite ?add_to_users_dom_eq; repeat split; set_eq_tauto.
Qed.

(** ** The counts in the headings *)

Lemma sorted_logins_length users cs : length (sorted_logins users cs) = size cs.
Proof. by rewrite sorted_logins_Permutation. Qed.

(** X6. At the end of every run the number in the heading of each of
    the four contributor lists is the number of bullets written under it,
    and so is the number in "There are N new contributors" when that
    section is shown. *)
Theorem headings_count_their_bullets milestone target_directory pulls docs_pulls :
  let st := (run milestone target_directory pulls docs_pulls).2 in
  let old := old_contributors milestone target_directory in
  Forall (λ item,
    ∃ lines,
      contributor_lines (users st) item.2 = Returned lines
      ∧ contributors_block (users st) item
        = Returned
            (print ""
             +:+ print ("## " +:+ str_of_nat (length lines) +:+ " " +:+ item.1
                        +:+ " added to this release (alphabetical)")
             +:+ print ""
             +:+ join (print <$> lines)
             +:+ print ""))
    (contributors st)
  ∧ (new_contributors_shown old (new_contributors st old) = true →
     ∃ lines,
       contributor_lines (users st) (new_contributors st old) = Returned lines
       ∧ new_contributors_block (users st) old (new_contributors st old)
         = Returned
             (print "## New Contributors"
              +:+ print ""
              +:+ print ("There are " +:+ str_of_nat (length lines)
                         +:+ " new contributors for this release:")
              +:+ print ""
              +:+ join (print <$> lines))).
Proof.
  intros st old.
  pose proof (covered_run milestone target_directory pulls docs_pulls) as Hcov.
  fold st in Hcov.
  pose proof (new_contributors_covered st old Hcov) as Hnew.
  destruct Hcov as (Ha & Hr & Hda & Hdr). split.
  - unfold contributors.
    repeat (apply Forall_cons; split;
      [eexists; split; [by apply contributor_lines_Returned|];
       unfold contributors_block;
       rewrite contributor_lines_Returned by done;
       by rewrite length_fmap, sorted_logins_length|]).
    constructor.
  - intros Hshown. eexists. split; [by apply contributor_lines_Returned|].
    unfold new_contributors_block. rewrite Hshown.
    rewrite contributor_lines_Returned by done.
    by rewrite length_fmap, sorted_logins_length.
Qed.

(** ** The report of this run among the earlier reports *)


Lemma drop_chars_app (a b : string) : drop_chars (String.length a) (a +:+ b) = b.
Proof. induction a as [|c a IH]; [by destruct b|]. by rewrite str_app_cons. Qed.

Lemma starts_with_app (p s : string) : starts_with p (p +:+ s) = true.
Proof.
  induction p as [|c p IH]; [done|].
  rewrite str_app_cons. simpl. by rewrite Ascii.eqb_refl.
Qed.

Lemma ends_with_app (a p : string) : ends_with p (a +:+ p) = true.
Proof.
  unfold ends_with. rewrite str_length_app.
  replace (String.length a + String.length p - String.length p)
    with (String.length a) by lia.
  rewrite drop_chars_app, String.eqb_refl, andb_true_r.
  apply Nat.leb_le. lia.
Qed.

Lemma res_file_name_is_report milestone :
  fnmatch_star "release_" ".md" (res_file_name milestone) = true.
Proof.
  unfold fnmatch_star, res_file_name.
  rewrite starts_with_app, andb_true_r.
  rewrite <- str_app_assoc, ends_with_app, andb_true_r.
  rewrite !str_length_app. apply Nat.leb_le. simpl. lia.
Qed.

(** X8. The name of the report file always matches [release_*.md], so
    the file this run writes is among the results of the glob, and it is
    skipped: the file of that name in the target directory, whatever its
    content, does not change the old contributors; neither does a file
    whose name does not match the pattern. *)
Theorem own_report_is_not_an_earlier_report milestone :
  fnmatch_star "release_" ".md" (res_file_name milestone) = true
  ∧ (∀ before after content,
        old_contributors milestone
          (Some (before ++ (res_file_name milestone, content) :: after))
        = old_contributors milestone (Some (before ++ after)))
  ∧ (∀ before after name content,
        fnmatch_star "release_" ".md" name = false →
        old_contributors milestone (Some (before ++ (name, content) :: after))
        = old_contributors milestone (Some (before ++ after))).
Proof.
  split; [apply res_file_name_is_report|]. split.
  - intros before after content.
    unfold old_contributors, prior_reports, glob_reports.
    rewrite !filter_app.
    rewrite (filter_cons_True _ (res_file_name milestone, content))
      by apply res_file_name_is_report.
    by rewrite (filter_cons_False _ (res_file_name milestone, content))
      by (simpl; auto).
  - intros before after name content Hname.
    unfold old_contributors, prior_reports, glob_reports.
    rewrite !filter_app.
    by rewrite (filter_cons_False _ (name, content)) by (simpl; congruence).
Qed.

(** ** What the scan of earlier reports can find *)

(** [w] stands in [s] directly after an [@]. *)
Definition mentioned (w s : string) : Prop :=
  ∃ before after, s = before +:+ String "@" (w +:+ after).

Lemma mentioned_cons c w s : mentioned w s → mentioned w (String c s).
Proof. intros (before & after & ->). by exists (String c before), after. Qed.

Lemma mentioned_app p w s : mentioned w s → mentioned w (p +:+ s).
Proof.
  induction p as [|c p IH]; [done|]. intros H.
  rewrite str_app_cons. by apply mentioned_cons, IH.
Qed.

Lemma findall_steps_mentioned n s :
  Forall (λ w, w ≠ "" ∧ mentioned w s)
    (findall_steps (span_login unicode) n s).
Proof.
  revert s. induction n as [|n IH]; intros [|c s]; simpl; try constructor.
  destruct (Ascii.eqb_spec c "@") as [->|_].
  2:{ eapply Forall_impl; [apply IH|]. intros w [? ?]. split; [done|].
      by apply mentioned_cons. }
  pose proof (span_login_splits unicode s) as Hs.
  destruct (span_login unicode s) as [[|c' w] rest]; simpl in Hs.
  - eapply Forall_impl; [apply IH|]. intros w [? ?]. split; [done|].
    by apply mentioned_cons.
  - constructor.
    + split; [done|]. exists "", rest. by rewrite <- Hs.
    + eapply Forall_impl; [apply (IH rest)|]. intros w' [? ?].
      split; [done|]. apply mentioned_cons. rewrite <- Hs.
      by apply (mentioned_app (String c' w)).
Qed.

(** X9. Every old contributor is a non-empty text that stands directly
    after an [@] in an earlier report: a file of the target directory
    whose name matches [release_*.md] and is not the name of the report of
    this run.  Without a target directory there are no old contributors. *)
Theorem old_contributors_are_mentions milestone target_directory :
  set_Forall
    (λ c, c ≠ ""
          ∧ ∃ directory name content,
              target_directory = Some directory
              ∧ (name, content) ∈ directory
              ∧ fnmatch_star "release_" ".md" name = true
              ∧ name ≠ res_file_name milestone
              ∧ mentioned c content)
    (old_contributors milestone target_directory).
Proof.
  intros c Hc. destruct target_directory as [directory|].
  - apply elem_of_old_contributors in Hc as ([name content] & Hf & Hc).
    unfold prior_reports, glob_reports in Hf.
    apply list_elem_of_filter in Hf as [Hown Hf].
    apply list_elem_of_filter in Hf as [Hglob Hf].
    pose proof (proj1 (Forall_forall _ _)
                  (findall_steps_mentioned _ _) c Hc) as [Hne Hm].
    split; [done|]. by exists directory, name, content.
  - by apply elem_of_empty in Hc.
Qed.

(** ** The entry of a pull request *)

(** Section [section] lists [n] with the entry [info]. *)
Definition entry_is (section : string) (n : Z) (info : Info)
    (hl : list (string * list (Z * Info))) : Prop :=
  ∃ d, get_item section hl = Some d ∧ get_item n d = Some info.

Lemma entry_is_set_item section s n info d hl :
  get_item s hl = Some d →
  section = s ∨ entry_is section n info hl →
  entry_is section n info (set_item s (set_item n info d) hl).
Proof.
  intros Hd Hs. unfold entry_is. rewrite get_item_set_item.
  destruct (decide (section = s)) as [->|Hne].
  - eexists. split; [done|]. rewrite get_item_set_item. by rewrite decide_True.
  - by destruct Hs.
Qed.

Lemma assign_loop_entries pull (table : list (string * string)) (assigned : bool) st :
  Forall (λ entry, entry.2 ∈ keys initial_highlights) table →
  sections_in_place st →
  let info := {| summary := title pull; repo := "napari" |} in
  let r := for_each_with table assigned (assign_section pull) st in
  (∀ s, entry_is s (number pull) info (highlights st) →
        entry_is s (number pull) info (highlights r.2))
  ∧ ∀ l s, (l, s) ∈ table → l ∈ pr_lables pull →
           entry_is s (number pull) info (highlights r.2).
Proof.
  revert assigned st. induction table as [|[label_name section] table IH];
    intros assigned st Htable Hst info.
  - simpl. split; [done|]. by intros l s ?%elem_of_nil.
  - apply Forall_cons in Htable as [Hsec Htable]. simpl in Hsec.
    destruct (assign_section_run pull assigned label_name section st Hsec Hst)
      as (d & Hd & Hrun).
    cbn [for_each_with]. unfold mbind, M_mbind, M_bind.
    rewrite Hrun. clear Hrun.
    destruct (decide (label_name ∈ pr_lables pull)) as [Hl|Hl].
    + assert (sections_in_place
                (with_highlights
                   (set_item section (set_item (number pull) info d)) st))
        as Hst'.
      { unfold sections_in_place. simpl. rewrite keys_set_item; [done|].
        by rewrite Hst. }
      destruct (IH true _ Htable Hst') as [Hkeep Hnew]. clear IH.
      split.
      * intros s Hs. apply Hkeep. simpl. apply entry_is_set_item; auto.
      * intros l s [[= -> ->]|Hin]%elem_of_cons Hls; [|by apply (Hnew l)].
        apply Hkeep. simpl. apply entry_is_set_item; auto.
    + destruct (IH assigned st Htable Hst) as [Hkeep Hnew]. clear IH.
      split; [done|].
      intros l s [[= -> ->]|Hin]%elem_of_cons Hls; [done|by apply (Hnew l)].
Qed.

(** X16. After a merged pull request of the main repository is
    processed, every section of a table key among its labels holds, under
    its number, the entry with its title and the repo label "napari",
    whatever entry was there under that number; when no key is among its
    labels, [other_pull_requests] holds that entry. *)
Theorem pull_entry_is_its_own pull st :
  merged pull = true →
  sections_in_place st →
  let st' := (process_pull pull st).2 in
  let info := {| summary := title pull; repo := "napari" |} in
  (∀ label_name section,
      (label_name, section) ∈ label_to_section →
      label_name ∈ pr_lables pull →
      ∃ d, get_item section (highlights st') = Some d
           ∧ get_item (number pull) d = Some info)
  ∧ ((∀ label_name section,
        (label_name, section) ∈ label_to_section →
        label_name ∉ pr_lables pull) →
     get_item (number pull) (other_pull_requests st') = Some info).
Proof.
  intros Hm Hst.
  destruct (process_pull_classify pull st Hm) as (st1 & [Hh Ho] & Hrun).
  cbv zeta. rewrite Hrun. clear Hrun.
  assert (sections_in_place st1) as Hst1.
  { unfold sections_in_place. by rewrite Hh. }
  destruct (assign_loop pull label_to_section false st1
              label_to_section_in_place Hst1) as (Hr & Ho' & _).
  destruct (assign_loop_entries pull label_to_section false st1
              label_to_section_in_place Hst1) as [_ Hnew].
  unfold classify, mbind, M_mbind, M_bind. fold (assign_sections pull) in *.
  destruct (assign_sections pull st1) as [o st2].
  cbn [fst snd orb] in Hr, Ho', Hnew. subst o.
  destruct (existsb _ label_to_section) eqn:Hex;
    unfold mret, M_mret, M_ret, modify;
    cbn [fst snd with_other_pull_requests other_pull_requests highlights].
  - split; [exact Hnew|]. intros Hnone.
    apply existsb_exists in Hex as ([l s] & Hin%list_elem_of_In & Hl).
    apply bool_decide_eq_true in Hl. by apply Hnone in Hin.
  - split; [exact Hnew|]. intros _.
    rewrite get_item_set_item. by rewrite decide_True.
Qed.

(** X17. After a merged pull request of the docs repository is
    processed, [other_pull_requests] (with a "maintenance" label) or else
    the section "Documentation" holds, under its number, the entry with
    its title and the repo label "docs", whatever entry was there under
    that number, also one of a pull request of the main repository; the
    other of the two is unchanged. *)
Theorem docs_pull_entry_is_its_own pull st :
  merged pull = true →
  sections_in_place st →
  let st' := (process_docs_pull pull st).2 in
  let info := {| summary := title pull; repo := "docs" |} in
  if decide ("maintenance" ∈ pr_lables pull) then
    get_item (number pull) (other_pull_requests st') = Some info
    ∧ highlights st' = highlights st
  else
    (∃ d, get_item "Documentation" (highlights st') = Some d
          ∧ get_item (number pull) d = Some info)
    ∧ other_pull_requests st' = other_pull_requests st.
Proof.
  intros Hm Hst.
  destruct (process_docs_pull_classify pull st Hm) as (st1 & [Hh Ho] & Hrun).
  cbv zeta. rewrite Hrun. clear Hrun. unfold classify_docs.
  destruct (decide ("maintenance" ∈ pr_lables pull)) as [Hl|Hl].
  - unfold modify. cbn [fst snd with_other_pull_requests other_pull_requests highlights].
    split; [|done]. rewrite get_item_set_item. by rewrite decide_True.
  - assert ("Documentation" ∈ keys (highlights st1)) as Hin.
    { rewrite Hh, Hst. apply Documentation_in_place. }
    destruct (get_item_is_Some "Documentation" (highlights st1))
      as [_ [d Hd]]; [done|].
    unfold highlights_set, mbind, M_mbind, M_bind, gets, modify. simpl.
    rewrite Hd. simpl. split; [|done].
    eexists. rewrite get_item_set_item, decide_True by done. split; [done|].
    rewrite get_item_set_item. by rewrite decide_True.
Qed.

(** ** No pull request is dropped *)

Lemma label_to_section_not_other :
  Forall (λ entry, entry.2 ≠ "Other Pull Requests") label_to_section.
Proof. by repeat constructor. Qed.

(** Pull request [n] has the entry [info] in a section or in
    [other_pull_requests]. *)
Definition entered (n : Z) (info : Info) (st : state) : Prop :=
  (∃ section, section ≠ "Other Pull Requests"
              ∧ entry_is section n info (highlights st))
  ∨ get_item n (other_pull_requests st) = Some info.

Lemma entered_highlights_set n info section m info' :
  m ≠ n →
  preserves (entered n info) (highlights_set section m info').
Proof.
  intros Hne st Hst. unfold highlights_set, mbind, M_mbind, M_bind. simpl.
  destruct (get_item section (highlights st)) as [d|] eqn:Hd; [|done].
  simpl. destruct Hst as [(s & Hs & d0 & Hd0 & Hn)|Ho]; [left|by right].
  exists s. split; [done|]. unfold entry_is. simpl.
  rewrite get_item_set_item.
  destruct (decide (s = section)) as [->|_]; [|by exists d0].
  eexists. split; [done|]. rewrite get_item_set_item.
  rewrite decide_False by done. congruence.
Qed.

(** The entry of [n] stays as it is while pull requests of other numbers
    are processed. *)
Lemma entered_invariant n info :
  step_invariant (λ pull, number pull ≠ n) (entered n info).
Proof.
  apply step_invariant_intro; try done.
  - intros u. by apply preserves_modify.
  - intros pull Hne. apply preserves_for_each_with.
    intros b [label_name section]. simpl. case_decide; [|apply preserves_ret].
    apply preserves_bind; [|intros; apply preserves_ret].
    by apply entered_highlights_set.
  - intros pull r Hne _. apply preserves_modify.
    intros st [?|Ho]; [by left|right]. simpl.
    rewrite get_item_set_item. by rewrite decide_False.
  - intros pull Hne. by apply entered_highlights_set.
  - intros st [(s & Hs & d & Hd & Hn)|Ho]; [left|by right].
    exists s. split; [done|]. exists d. split; [|done]. simpl.
    rewrite get_item_set_item. by rewrite decide_False.
Qed.

Lemma process_pull_entered pull st :
  merged pull = true → sections_in_place st →
  entered (number pull) {| summary := title pull; repo := "napari" |}
    (process_pull pull st).2.
Proof.
  intros Hm Hst.
  destruct (process_pull_classify pull st Hm) as (st1 & [Hh Ho] & ->).
  assert (sections_in_place st1) as Hst1.
  { unfold sections_in_place. by rewrite Hh. }
  destruct (assign_loop pull label_to_section false st1
              label_to_section_in_place Hst1) as (Hr & Ho' & _).
  destruct (assign_loop_entries pull label_to_section false st1
              label_to_section_in_place Hst1) as [_ Hnew].
  unfold classify, mbind, M_mbind, M_bind. fold (assign_sections pull) in *.
  destruct (assign_sections pull st1) as [o st2].
  cbn [fst snd orb] in Hr, Ho', Hnew. subst o.
  destruct (existsb _ label_to_section) eqn:Hex;
    unfold mret, M_mret, M_ret, modify;
    cbn [fst snd with_other_pull_requests other_pull_requests highlights].
  - apply existsb_exists in Hex as ([l s] & Hin & Hl). simpl in Hl.
    apply bool_decide_eq_true in Hl. apply list_elem_of_In in Hin. left.
    exists s. split.
    + exact (proj1 (Forall_forall _ _) label_to_section_not_other _ Hin).
    + by apply (Hnew l).
  - right. simpl. rewrite get_item_set_item. by rewrite decide_True.
Qed.

Lemma process_docs_pull_entered pull st :
  merged pull = true → sections_in_place st →
  entered (number pull) {| summary := title pull; repo := "docs" |}
    (process_docs_pull pull st).2.
Proof.
  intros Hm Hst.
  destruct (process_docs_pull_classify pull st Hm) as (st1 & [Hh Ho] & ->).
  unfold classify_docs. case_decide.
  - right. simpl. rewrite get_item_set_item. by rewrite decide_True.
  - assert ("Documentation" ∈ keys (highlights st1)) as Hin.
    { rewrite Hh, Hst. apply Documentation_in_place. }
    destruct (get_item_is_Some "Documentation" (highlights st1))
      as [_ [d Hd]]; [done|].
    unfold highlights_set, mbind, M_mbind, M_bind, gets, modify. simpl.
    rewrite Hd. simpl. left. exists "Documentation". split; [done|].
    cbn [highlights with_highlights].
    eexists. rewrite get_item_set_item, decide_True by done. split; [done|].
    rewrite get_item_set_item. by rewrite decide_True.
Qed.

Lemma for_each_entered (body : PullRequest → M unit) (r : string)
    (l : list PullRequest) st :
  (∀ pull, merged pull = true → total sections_in_place (body pull)) →
  (∀ pull n info, number pull ≠ n → preserves (entered n info) (body pull)) →
  (∀ pull st, merged pull = true → sections_in_place st →
              entered (number pull) {| summary := title pull; repo := r |}
                (body pull st).2) →
  forallb merged l = true →
  NoDup (number <$> l) →
  sections_in_place st →
  ∀ pull, pull ∈ l →
          entered (number pull) {| summary := title pull; repo := r |}
            (for_each l body st).2.
Proof.
  intros Htotal Hkeep Henter. revert st.
  induction l as [|p l IH]; intros st Hall Hnd Hst pull Hin.
  { by apply elem_of_nil in Hin. }
  simpl in Hall. apply andb_true_iff in Hall as [Hp Hall].
  rewrite fmap_cons in Hnd. apply NoDup_cons in Hnd as [Hfresh Hnd].
  pose proof (Henter p st Hp Hst) as Hentered.
  destruct (Htotal p Hp st Hst) as [Hst' [[] Hr]].
  simpl. unfold mbind, M_mbind, M_bind.
  destruct (body p st) as [o st']. simpl in *. subst o.
  apply elem_of_cons in Hin as [->|Hin]; [|by apply IH].
  apply preserves_for_each_in; [|done].
  intros q Hq. apply Hkeep. intros Heq. apply Hfresh.
  rewrite <- Heq. by apply list_elem_of_fmap_2.
Qed.

(** X13. When a run returns and the pull requests that the two queries
    yielded have distinct numbers, none is dropped: when the report is
    written, every pull request of the main repository has its own entry,
    with its title and the repo label "napari", in a section of
    [highlights], and every pull request of the docs repository its own,
    with the repo label "docs".  (Two pull requests of one number can be
    filed under the same key of one section, where the later one replaces
    the earlier; see [same_number_in_both_repositories].) *)
Theorem distinct_pulls_keep_their_entries
    milestone target_directory pulls docs_pulls :
  forallb merged (pulls ++ docs_pulls) = true →
  NoDup (number <$> (pulls ++ docs_pulls)) →
  let st := (run milestone target_directory pulls docs_pulls).2 in
  Forall (λ pull, ∃ section,
            entry_is section (number pull)
              {| summary := title pull; repo := "napari" |} (highlights st))
    pulls
  ∧ Forall (λ pull, ∃ section,
              entry_is section (number pull)
                {| summary := title pull; repo := "docs" |} (highlights st))
      docs_pulls.
Proof.
  intros Hmerged Hnd.
  destruct (run_returned_state milestone target_directory pulls docs_pulls Hmerged)
    as (st1 & st2 & Hrun1 & Hrun2 & Hst1 & Hst2 & ->).
  rewrite forallb_app in Hmerged. apply andb_true_iff in Hmerged as [Hpulls Hdocs].
  rewrite fmap_app in Hnd. apply NoDup_app in Hnd as (Hnd1 & Hdisj & Hnd2).
  assert (st1 = (for_each pulls process_pull initial_state).2) as Hst1'
    by by rewrite Hrun1.
  assert (st2 = (for_each docs_pulls process_docs_pull st1).2) as Hst2'
    by by rewrite Hrun2.
  assert (∀ n info, entered n info st2 →
            ∃ section, entry_is section n info
                         (highlights (finish_collection st2).2)) as Hfinish.
  { intros n info [(s & Hs & d & Hd & Hn)|Ho]; simpl.
    - exists s, d. split; [|done].
      rewrite get_item_set_item. by rewrite decide_False.
    - exists "Other Pull Requests", (other_pull_requests st2). split; [|done].
      rewrite get_item_set_item. by rewrite decide_True. }
  cbv zeta. split; apply Forall_forall; intros pull Hin; apply Hfinish.
  - rewrite Hst2'. apply preserves_for_each_in.
    { intros q Hq.
      apply (preserves_process_docs_pull (λ p, number p ≠ number pull));
        [apply entered_invariant|].
      intros Heq. apply (Hdisj (number pull)).
      - by apply list_elem_of_fmap_2.
      - rewrite <- Heq. by apply list_elem_of_fmap_2. }
    rewrite Hst1'. apply for_each_entered; try done.
    + apply total_process_pull.
    + intros p n info Hne.
      apply (preserves_process_pull (λ p, number p ≠ n)); [|done].
      apply entered_invariant.
    + apply process_pull_entered.
  - rewrite Hst2'. apply for_each_entered; try done.
    + apply total_process_docs_pull.
    + intros p n info Hne.
      apply (preserves_process_docs_pull (λ p, number p ≠ n)); [|done].
      apply entered_invariant.
    + apply process_docs_pull_entered.
Qed.

End Release.

(** ** The pattern on ASCII text

    On ASCII text the class [\w] is the letters, the digits and the
    underscore, and [span_ascii] is the greedy match of [[\w-]*]. *)

Lemma span_ascii_splits s : (span_ascii s).1 +:+ (span_ascii s).2 = s.
Proof.
  induction s as [|c s IH]; simpl; [done|].
  destruct (login_char c); [|done].
  destruct (span_ascii s) as [w rest]. simpl in *.
  by rewrite str_app_cons, IH.
Qed.

Lemma span_ascii_word (w s : string) :
  all_chars login_char w = true →
  span_ascii (w +:+ String "010" s) = (w, String "010" s).
Proof.
  induction w as [|c w IH]; [done|].
  simpl. intros [Hc Hw]%andb_true_iff. by rewrite Hc, IH.
Qed.

Definition ascii_only : Unicode :=
  {| str_lower := lower_ascii;
     span_login := span_ascii;
     span_login_splits := span_ascii_splits;
     span_login_ascii := span_ascii_word |}.

(** ** Concrete runs

    An environment for examples: ASCII text, no corrections but one, three
    bots, and the host constants of the napari project. *)

Definition example_corrections : gmap string string :=
  {[ "jni" := "Juan Nunez-Iglesias" ]}.
Definition example_bots : gset string :=
  {[ "dependabot[bot]"; "github-actions[bot]"; "pre-commit-ci[bot]" ]}.

Definition example_run :=
  run ascii_only example_corrections example_bots
    "github.com" "napari" "napari".

Definition alice : User := {| login := "alice"; name := None |}.
Definition carol : User := {| login := "carol-d"; name := Some "Carol D." |}.
Definition dependabot : User :=
  {| login := "dependabot[bot]"; name := Some "dependabot[bot]" |}.

(** The scenario of the specification: pull request 100, labelled [bug],
    merged, committed and authored by [alice], who has no profile name. *)
Definition pull_100 : PullRequest :=
  {| number := 100; title := "Fix crash on load"; labels := ["bug"];
     merged := true;
     merge_commit := {| committer := Some alice; author := Some alice |};
     get_reviews := [ {| user := Some carol |} ];
     issue_user := alice |}.

Example scenario_bug_fix :
  let st := (example_run "0.15.0" None [pull_100] []).2 in
  sections_listing 100 (highlights st) = ["Bug Fixes"]
  ∧ section_block "github.com" "napari" ("Bug Fixes", [(100%Z, {| summary := "Fix crash on load"; repo := "napari" |})])
    = "## Bug Fixes" +:+ nl +:+ nl
      +:+ "- Fix crash on load ([napari/napari/#100](https://github.com/napari/napari/pull/100))"
      +:+ nl +:+ nl
  ∧ contributor_lines ascii_only "github.com" "napari" "napari" (users st) (authors st)
    = Returned ["- [alice](https://github.com/napari/napari/commits?author=alice) - @alice"].
Proof. by vm_compute. Qed.

(** *** The user directory *)

(** A corrected login: the correction wins over the profile name. *)
Lemma add_to_users_name_priority_witness :
  add_to_users example_corrections ∅ {| login := "jni"; name := Some "Juan" |}
    !! "jni"
  = Some "Juan Nunez-Iglesias".
Proof.
  apply (add_to_users_name_priority example_corrections ∅
           {| login := "jni"; name := Some "Juan" |}).
  reflexivity.
Defined.

Example add_to_users_profile_name :
  add_to_users example_corrections ∅ carol !! "carol-d" = Some "Carol D.".
Proof. by vm_compute. Qed.

Example add_to_users_login_fallback :
  add_to_users example_corrections ∅ alice !! "alice" = Some "alice".
Proof. by vm_compute. Qed.

(** Two pull requests by the same author, who also reviews a third:
    one resolution. *)
Example same_author_resolved_once :
  let pull_101 :=
    {| number := 101; title := "Add tests"; labels := [];
       merged := true;
       merge_commit := {| committer := None; author := Some alice |};
       get_reviews := [ {| user := Some alice |} ];
       issue_user := alice |} in
  resolved (example_run "0.15.0" None [pull_100; pull_101] [pull_101]).2
  = ["alice"; "carol-d"].
Proof. by vm_compute. Qed.

(** *** Pull requests that are not merged *)

Definition pull_unmerged : PullRequest :=
  {| number := 7; title := "Work in progress"; labels := ["feature"];
     merged := false;
     merge_commit := {| committer := Some alice; author := Some alice |};
     get_reviews := [];
     issue_user := alice |}.

(** A run whose second pull request is not merged. *)
Lemma unmerged_pull_aborts_witness :
  (example_run "0.15.0" None [pull_100; pull_unmerged] []).1
  = Raised AssertionError
  ∧ ∀ st, process_pull ascii_only example_corrections pull_unmerged st
          = (Raised AssertionError, st)
          ∧ process_docs_pull ascii_only example_corrections pull_unmerged st
            = (Raised AssertionError, st).
Proof.
  apply (unmerged_pull_aborts ascii_only example_corrections example_bots
           "github.com" "napari" "napari" "0.15.0" None
           [pull_100; pull_unmerged] [] pull_unmerged).
  - right. left.
  - reflexivity.
Defined.

(** *** Several recognised labels *)

Definition pull_two_labels : PullRequest :=
  {| number := 7; title := "Speed up and fix slicing";
     labels := ["Bug"; "feature"];
     merged := true;
     merge_commit := {| committer := Some alice; author := Some alice |};
     get_reviews := [];
     issue_user := alice |}.

(** The statement of the specification: after a run over one pull request
    of the main repository, the sections that list it are the single
    section of the first match. *)
Definition filed_by_first_match (pull : PullRequest) : Prop :=
  sections_listing (number pull)
    (highlights (example_run "0.15.0" None [pull] []).2)
  = [first_match_section (pr_lables ascii_only pull)].

Example first_match_one_label : filed_by_first_match pull_100.
Proof. by vm_compute. Qed.

(** Labels [bug] and [feature]: the pull request is listed under "New
    Features" and under "Bug Fixes", not under the first match alone. *)
Lemma first_match_counterexample : ¬ filed_by_first_match pull_two_labels.
Proof.
  assert (sections_listing 7
            (highlights (example_run "0.15.0" None [pull_two_labels] []).2)
          = ["New Features"; "Bug Fixes"]) as Hcode by by vm_compute.
  assert (first_match_section (pr_lables ascii_only pull_two_labels) = "Bug Fixes")
    as Hspec by by vm_compute.
  unfold filed_by_first_match. simpl number. rewrite Hcode, Hspec. discriminate.
Qed.

(** The same pull request, by the amended statement. *)
Lemma classification_files_every_match_witness :
  let st' := (process_pull ascii_only example_corrections pull_two_labels initial_state).2 in
  filed "Bug Fixes" 7 (highlights st')
  ∧ filed "New Features" 7 (highlights st')
  ∧ ¬ filed "Highlights" 7 (highlights st')
  ∧ 7%Z ∉ keys (other_pull_requests st').
Proof.
  intros st'.
  destruct (classification_files_every_match ascii_only example_corrections
              pull_two_labels initial_state eq_refl eq_refl) as [Hfiled Hother].
  fold st' in Hfiled, Hother.
  assert ("bug" ∈ pr_lables ascii_only pull_two_labels) as Hbug by by vm_compute.
  assert ("feature" ∈ pr_lables ascii_only pull_two_labels) as Hfeature by by vm_compute.
  assert (∀ s, ¬ filed s 7 (highlights initial_state)) as Hinit.
  { intros s (d & Hd & Hn). revert Hd. unfold initial_state. simpl.
    repeat (case_decide; [intros [= <-]; by apply elem_of_nil in Hn|]). done. }
  split; [|split; [|split]].
  - apply Hfiled. right. split; [done|]. exists "bug". split; [|done].
    by apply (list_elem_of_lookup_2 _ 0).
  - apply Hfiled. right. split; [done|]. exists "feature". split; [|done].
    by apply (list_elem_of_lookup_2 _ 2).
  - intros Hf. apply (proj1 (Hfiled _ _)) in Hf as [Hf|(_ & l & Hin & Hl)].
    + by eapply Hinit.
    + assert ("highlight" ∉ pr_lables ascii_only pull_two_labels) as Hnot
        by (apply (bool_decide_eq_false_1 _); by vm_compute).
      apply list_elem_of_In in Hin. simpl in Hin.
      repeat (destruct Hin as [Hin|Hin]; [try discriminate Hin|]); [|done].
      injection Hin as <-. done.
  - intros Ho. apply (proj1 (Hother _)) in Ho as [Ho|[_ Hnone]].
    + by apply elem_of_nil in Ho.
    + apply (Hnone "bug" "Bug Fixes"); [|done].
      by apply (list_elem_of_lookup_2 _ 0).
Defined.

(** *** Bots *)

(** A pull request that a bot opened, committed to and reviewed. *)
Definition pull_by_bot : PullRequest :=
  {| number := 8; title := "Bump numpy";
     labels := ["dependencies"];
     merged := true;
     merge_commit := {| committer := Some dependabot; author := Some dependabot |};
     get_reviews := [ {| user := Some dependabot |} ];
     issue_user := dependabot |}.

(** C2. The bot is removed from the authors and the docs authors but stays
    among the reviewers and the docs reviewers, and both lists are rendered
    with its bullet. *)
Theorem bot_reviewer_is_rendered :
  let st := (example_run "0.15.0" None [pull_by_bot] [pull_by_bot]).2 in
  let bullet_of_bot :=
    "- [dependabot[bot]](https://github.com/napari/napari/commits?author=dependabot[bot]) - @dependabot[bot]" in
  "dependabot[bot]" ∈ example_bots
  ∧ contributor_lines ascii_only "github.com" "napari" "napari" (users st) (authors st)
    = Returned []
  ∧ contributor_lines ascii_only "github.com" "napari" "napari" (users st) (docs_authors st)
    = Returned []
  ∧ contributor_lines ascii_only "github.com" "napari" "napari" (users st) (reviewers st)
    = Returned [bullet_of_bot]
  ∧ contributor_lines ascii_only "github.com" "napari" "napari" (users st) (docs_reviewers st)
    = Returned [bullet_of_bot].
Proof.
  split; [apply (bool_decide_unpack _); by vm_compute|]. by vm_compute.
Qed.

(** *** The name of the report file *)

Example res_file_name_dots : res_file_name "0.15.0" = "release_0_15_0.md".
Proof. reflexivity. Qed.

(** A hyphen in the milestone stays a hyphen. *)
Lemma separators_normalized_counterexample :
  res_file_name "0.5.0-rc1" ≠ separators_normalized_name "0.5.0-rc1".
Proof.
  assert (res_file_name "0.5.0-rc1" = "release_0_5_0-rc1.md") as -> by done.
  assert (separators_normalized_name "0.5.0-rc1" = "release_0_5_0_rc1.md")
    as -> by done.
  discriminate.
Qed.

(** *** The new-contributors section *)



(** With an earlier report that mentions [alice], only [carol-d] would be
    new, but reviewers do not count: no section.  With one that mentions
    someone else, [alice] is new. *)
Example new_contributors_section_shown :
  let target_directory := Some [("release_0_14_0.md", "- [Bob](link) - @bob")] in
  let st := (example_run "0.15.0" target_directory [pull_100] []).2 in
  new_contributors_section ascii_only "github.com" "napari" "napari" "0.15.0"
    target_directory st
  = "## New Contributors" +:+ nl +:+ nl
    +:+ "There are 1 new contributors for this release:" +:+ nl +:+ nl
    +:+ "- [alice](https://github.com/napari/napari/commits?author=alice) - @alice"
    +:+ nl.
Proof. by vm_compute. Qed.

(** *** The order of the bullets *)

(** Logins [b] and [a] with display names [Alice] and [bob]: Alice first,
    although [a] is the smaller login and [b...] the smaller string. *)
Example alice_before_bob :
  let users : gmap string string := {[ "b" := "Alice"; "a" := "bob" ]} in
  contributor_lines ascii_only "github.com" "napari" "napari" users {[ "a"; "b" ]}
  = Returned
      [ "- [Alice](https://github.com/napari/napari/commits?author=b) - @b";
        "- [bob](https://github.com/napari/napari/commits?author=a) - @a" ].
Proof. by vm_compute. Qed.

(** Display names with an accent: [str.lower] lowers the accented
    capital too, so "José A" is written before "JOSÉ Z". *)
Example accented_names (unicode : Unicode) :
  str_lower unicode "JOSÉ Z" = "josé z" →
  str_lower unicode "José A" = "josé a" →
  let users : gmap string string := {[ "jz" := "JOSÉ Z"; "ja" := "José A" ]} in
  contributor_lines unicode "github.com" "napari" "napari" users {[ "jz"; "ja" ]}
  = Returned
      [ "- [José A](https://github.com/napari/napari/commits?author=ja) - @ja";
        "- [JOSÉ Z](https://github.com/napari/napari/commits?author=jz) - @jz" ].
Proof.
  intros Hz Ha users.
  rewrite contributor_lines_Returned
    by (apply (bool_decide_unpack _); by vm_compute).
  unfold sorted_logins, sort_key, lower.
  assert (elements ({[ "jz"; "ja" ]} : gset string) = ["ja"; "jz"]) as ->
    by by vm_compute.
  assert (display_name users "jz" = "JOSÉ Z") as Hjz by by vm_compute.
  assert (display_name users "ja" = "José A") as Hja by by vm_compute.
  rewrite !fmap_cons, Hjz, Hja, Hz, Ha. by vm_compute.
Qed.

(** *** Scanning a report *)

Definition pull_with_mention : PullRequest :=
  {| number := 9; title := "Fix the crash reported by @bob";
     labels := ["bug"];
     merged := true;
     merge_commit := {| committer := Some alice; author := Some alice |};
     get_reviews := [ {| user := Some carol |} ];
     issue_user := alice |}.

(** The statement of the specification: the scan of the report of a run
    yields the set of the logins written as bullets. *)
Definition rescan_recovers_bullets (pulls docs_pulls : list PullRequest) : Prop :=
  ∀ report,
    (example_run "0.15.0" None pulls docs_pulls).1 = Returned report →
    let st := (example_run "0.15.0" None pulls docs_pulls).2 in
    list_to_set (findall ascii_only (text report))
    = authors st ∪ reviewers st ∪ docs_authors st ∪ docs_reviewers st.

(** A title that mentions [@bob]: the scan finds [bob], who has no
    bullet. *)
Lemma rescan_counterexample : ¬ rescan_recovers_bullets [pull_with_mention] [].
Proof.
  intros Hclaim.
  destruct (example_run "0.15.0" None [pull_with_mention] []).1
    as [report|e] eqn:Hrun; [|by vm_compute in Hrun].
  specialize (Hclaim report Hrun). cbv zeta in Hclaim.
  apply (f_equal (λ s : gset string, bool_decide ("bob" ∈ s))) in Hclaim.
  vm_compute in Hrun. injection Hrun as <-.
  by vm_compute in Hclaim.
Qed.

(** A run over clean titles and logins. *)
Lemma rescan_recovers_written_logins_witness :
  let st := (example_run "0.15.0" None [pull_100] [pull_100]).2 in
  ∃ text,
    render ascii_only "github.com" "napari" "napari" "0.15.0"
      (old_contributors ascii_only "0.15.0" None) st = Returned text
    ∧ findall ascii_only text = written_logins ascii_only (old_contributors ascii_only "0.15.0" None) st
    ∧ list_to_set (findall ascii_only text)
      = authors st ∪ reviewers st ∪ docs_authors st ∪ docs_reviewers st.
Proof.
  apply (rescan_recovers_written_logins ascii_only example_corrections example_bots
           "github.com" "napari" "napari" "0.15.0" None [pull_100] [pull_100]);
    vm_compute; reflexivity.
Defined.

Example rescan_two_pulls :
  match (example_run "0.15.0" None [pull_100] [pull_100]).1 with
  | Returned report => findall ascii_only (text report)
  | Raised _ => []
  end
  = ["alice"; "carol-d"; "alice"; "carol-d"].
Proof. vm_compute. reflexivity. Qed.

(** A login with an accent, which the class [\w] of Python matches, is
    an old contributor. *)
Example accented_login (unicode : Unicode) :
  span_login unicode "émile" = ("émile", "") →
  old_contributors unicode "0.15.0" (Some [("release_0_14_0.md", "@émile")])
  = {[ "émile" ]}.
Proof.
  intros Hspan. unfold old_contributors.
  assert (prior_reports "0.15.0" [("release_0_14_0.md", "@émile")]
          = [("release_0_14_0.md", "@émile")]) as -> by by vm_compute.
  cbn [foldl snd]. rewrite findall_cons. cbn [Ascii.eqb Bool.eqb].
  rewrite Hspan, findall_nil. simpl. by rewrite union_empty_l_L, union_empty_r_L.
Qed.

(** ** The correction file and the user directory *)

(** X1. The correction table holds, for a login, the corrected name of the
    last record of the correction file with that login, and nothing for a
    login without a record; so a user who is new to the directory gets
    the name of the last record of the login, and without a record the
    profile name or, failing that, the login. *)
Theorem corrections_last_record_wins (login_to_name : list (string * string)) :
  (∀ l, load_corrections login_to_name !! l
        = snd <$> last (filter (λ correction, correction.1 = l) login_to_name))
  ∧ (∀ (users : gmap string string) new_user,
        users !! login new_user = None →
        add_to_users (load_corrections login_to_name) users new_user
          !! login new_user
        = Some match last (filter (λ correction, correction.1 = login new_user)
                             login_to_name), name new_user with
               | Some correction, _ => correction.2
               | None, Some profile_name => profile_name
               | None, None => login new_user
               end).
Proof.
  assert (∀ l, load_corrections login_to_name !! l
        = snd <$> last (filter (λ correction, correction.1 = l) login_to_name))
    as Hload.
  { intros l. unfold load_corrections. rewrite foldl_corrections_lookup.
    by destruct (last _). }
  split; [done|]. intros users new_user Hnew.
  rewrite add_to_users_unfold, Hnew, lookup_insert_eq. unfold stored_name.
  rewrite Hload. by destruct (last _).
Qed.

Example corrections_duplicate_login :
  add_to_users
    (load_corrections [("jni", "Juan"); ("alice", "Alice A."); ("jni", "Juan Nunez-Iglesias")])
    ∅ {| login := "jni"; name := Some "jni-profile" |} !! "jni"
  = Some "Juan Nunez-Iglesias".
Proof. by vm_compute. Qed.

(** ** Runs that return *)

(** A docs pull request with the number of [pull_100], labelled [bug] and
    reviewed once by nobody. *)
Definition docs_pull_100 : PullRequest :=
  {| number := 100; title := "Explain slicing"; labels := ["bug"];
     merged := true;
     merge_commit := {| committer := None; author := None |};
     get_reviews := [ {| user := None |}; {| user := Some carol |} ];
     issue_user := alice |}.

Definition docs_pull_maintenance : PullRequest :=
  {| number := 12; title := "Update the CI"; labels := ["Maintenance"];
     merged := true;
     merge_commit := {| committer := None; author := None |};
     get_reviews := [];
     issue_user := dependabot |}.

Lemma docs_pull_classification_witness :
  let st' := (process_docs_pull ascii_only example_corrections docs_pull_100 initial_state).2 in
  filed "Documentation" 100 (highlights st')
  ∧ ¬ filed "Bug Fixes" 100 (highlights st')
  ∧ 100%Z ∉ keys (other_pull_requests st').
Proof.
  intros st'.
  destruct (docs_pull_classification ascii_only example_corrections docs_pull_100
              initial_state eq_refl eq_refl) as [Hfiled Hother].
  fold st' in Hfiled, Hother.
  assert ("maintenance" ∉ pr_lables ascii_only docs_pull_100) as Hlabel
    by (apply (bool_decide_eq_false_1 _); by vm_compute).
  assert (∀ s, ¬ filed s 100 (highlights initial_state)) as Hinit.
  { intros s (d & Hd & Hn). revert Hd. unfold initial_state. simpl.
    repeat (case_decide; [intros [= <-]; by apply elem_of_nil in Hn|]). done. }
  split; [|split].
  - apply Hfiled. by right.
  - intros Hf. apply (proj1 (Hfiled _ _)) in Hf as [Hf|(Hs & _)].
    + by eapply Hinit.
    + discriminate Hs.
  - intros Ho. apply (proj1 (Hother _)) in Ho as [Ho|[_ Hl]]; [|done].
    by apply elem_of_nil in Ho.
Defined.

Example docs_maintenance_is_other :
  let st := (example_run "0.15.0" None [] [docs_pull_maintenance]).2 in
  sections_listing 12 (highlights st) = ["Other Pull Requests"].
Proof. by vm_compute. Qed.

Lemma sections_in_fixed_order_witness :
  let st := (example_run "0.15.0" None [pull_100] [docs_pull_100]).2 in
  keys (highlights st)
  = ["Highlights"; "New Features"; "Improvements"; "Performance"; "Bug Fixes";
     "API Changes"; "Deprecations"; "Build Tools"; "Documentation";
     "Other Pull Requests"]
  ∧ get_item "Other Pull Requests" (highlights st)
    = Some (other_pull_requests st).
Proof.
  apply (sections_in_fixed_order ascii_only example_corrections example_bots
           "github.com" "napari" "napari" "0.15.0" None [pull_100] [docs_pull_100]).
  reflexivity.
Defined.

Lemma bots_removed_from_authors_witness :
  let st := (example_run "0.15.0" None [pull_by_bot] [docs_pull_maintenance]).2 in
  authors st ## example_bots ∧ docs_authors st ## example_bots
  ∧ committers st ## example_bots
  ∧ new_contributors st (old_contributors ascii_only "0.15.0" None) ## example_bots.
Proof.
  apply (bots_removed_from_authors ascii_only example_corrections example_bots
           "github.com" "napari" "napari" "0.15.0" None
           [pull_by_bot] [docs_pull_maintenance]).
  reflexivity.
Defined.

Lemma distinct_pulls_keep_their_entries_witness :
  let st := (example_run "0.15.0" None [pull_100; pull_two_labels]
               [docs_pull_maintenance]).2 in
  Forall (λ pull, ∃ section,
            entry_is section (number pull)
              {| summary := title pull; repo := "napari" |} (highlights st))
    [pull_100; pull_two_labels]
  ∧ Forall (λ pull, ∃ section,
              entry_is section (number pull)
                {| summary := title pull; repo := "docs" |} (highlights st))
      [docs_pull_maintenance].
Proof.
  apply (distinct_pulls_keep_their_entries ascii_only example_corrections
           example_bots "github.com" "napari" "napari" "0.15.0" None
           [pull_100; pull_two_labels] [docs_pull_maintenance]).
  - reflexivity.
  - apply (bool_decide_unpack _). by vm_compute.
Defined.

(** ** File operations that fail *)

(** A target directory with the report of this milestone from an earlier
    attempt, which cannot be decoded, a file that is no report, an earlier
    report that can be read and two that cannot. *)
Definition directory_with_failures : TargetDirectory :=
  {| open_report := None;
     listing :=
       [ ("release_0_15_0.md", Raised UnicodeDecodeError);
         ("notes.txt", Raised OSError);
         ("release_0_13_0.md", Returned ("- [Bob](link) - @bob" +:+ nl));
         ("release_0_14_0.md", Raised UnicodeDecodeError);
         ("release_0_14_1.md", Raised OSError) ] |}.

Definition example_run_files :=
  run_files ascii_only example_corrections example_bots
    "github.com" "napari" "napari".

(** The first earlier report that cannot be read ends the run; the two
    files before it that cannot be read either are not opened. *)
Example unreadable_report_ends_run :
  (example_run_files "0.15.0" (Some directory_with_failures) [pull_100] []).1
  = Raised UnicodeDecodeError.
Proof. by vm_compute. Qed.

Example report_file_does_not_open :
  (example_run_files "0.15.0"
     (Some {| open_report := Some OSError; listing := [] |}) [pull_100] []).1
  = Raised OSError.
Proof. by vm_compute. Qed.

(** The pull requests are collected before any file is touched. *)
Example unmerged_before_files :
  (example_run_files "0.15.0" (Some directory_with_failures)
     [pull_100; pull_unmerged] []).1
  = Raised AssertionError.
Proof. by vm_compute. Qed.

(** Only the files that are skipped cannot be read: the run returns, and
    [bob] is the old contributor. *)
Example skipped_files_are_not_read :
  read_old_contributors ascii_only "0.15.0"
    (Some {| open_report := None;
             listing := take 3 (listing directory_with_failures) |})
  = Returned {[ "bob" ]}.
Proof. by vm_compute. Qed.

(** ** What one pull request records *)

Lemma process_pull_records_witness :
  let st' := (process_pull ascii_only example_corrections pull_100 initial_state).2 in
  committers st' = ∅ ∪ {["alice"]}
  ∧ authors st' = ∅ ∪ {["alice"]}
  ∧ reviewers st' = ∅ ∪ review_logins pull_100
  ∧ docs_committers st' = ∅
  ∧ docs_authors st' = ∅
  ∧ docs_reviewers st' = ∅
  ∧ dom (users st') = dom (∅ : gmap string string) ∪ {["alice"]} ∪ {["alice"]}
                      ∪ review_logins pull_100.
Proof.
  apply (process_pull_records ascii_only example_corrections pull_100 initial_state).
  reflexivity.
Defined.

Lemma process_docs_pull_records_witness :
  let st' := (process_docs_pull ascii_only example_corrections docs_pull_100 initial_state).2 in
  docs_authors st' = ∅ ∪ {["alice"]}
  ∧ docs_reviewers st' = ∅ ∪ review_logins docs_pull_100
  ∧ committers st' = ∅
  ∧ authors st' = ∅
  ∧ reviewers st' = ∅
  ∧ docs_committers st' = ∅
  ∧ dom (users st') = dom (∅ : gmap string string) ∪ {["alice"]}
                      ∪ review_logins docs_pull_100.
Proof.
  apply (process_docs_pull_records ascii_only example_corrections docs_pull_100 initial_state).
  reflexivity.
Defined.

(** A review without a user records nobody: of the two reviews of
    [docs_pull_100] only [carol-d] is recorded. *)
Example review_without_user :
  elements (docs_reviewers
              (process_docs_pull ascii_only example_corrections docs_pull_100 initial_state).2)
  = ["carol-d"].
Proof. by vm_compute. Qed.

(** ** The entry of a pull request *)

(** The main repository and the docs repository both have a pull request
    100 that goes to "Documentation": the entry of the docs repository,
    processed later, replaces the other. *)
Definition pull_100_documentation : PullRequest :=
  {| number := 100; title := "Document the API"; labels := ["documentation"];
     merged := true;
     merge_commit := {| committer := None; author := Some alice |};
     get_reviews := [];
     issue_user := alice |}.

Lemma pull_entry_is_its_own_witness :
  let st' := (process_pull ascii_only example_corrections pull_100_documentation
                initial_state).2 in
  ∃ d, get_item "Documentation" (highlights st') = Some d
       ∧ get_item 100%Z d
         = Some {| summary := "Document the API"; repo := "napari" |}.
Proof.
  intros st'.
  destruct (pull_entry_is_its_own ascii_only example_corrections pull_100_documentation
              initial_state eq_refl eq_refl) as [Hsection _].
  apply (Hsection "documentation" "Documentation").
  - by apply (list_elem_of_lookup_2 _ 9).
  - apply (bool_decide_unpack _). by vm_compute.
Defined.

Lemma docs_pull_entry_is_its_own_witness :
  let st := (process_pull ascii_only example_corrections pull_100_documentation
               initial_state).2 in
  let st' := (process_docs_pull ascii_only example_corrections docs_pull_100 st).2 in
  (∃ d, get_item "Documentation" (highlights st') = Some d
        ∧ get_item 100%Z d
          = Some {| summary := "Explain slicing"; repo := "docs" |})
  ∧ other_pull_requests st' = other_pull_requests st.
Proof.
  intros st st'.
  pose proof (docs_pull_entry_is_its_own ascii_only example_corrections docs_pull_100 st
                eq_refl) as H.
  assert (sections_in_place st) as Hst by by vm_compute.
  specialize (H Hst). cbv zeta in H.
  by rewrite decide_False in H
    by (apply (bool_decide_eq_false_1 _); by vm_compute).
Defined.

Example same_number_in_both_repositories :
  let st := (example_run "0.15.0" None [pull_100_documentation] [docs_pull_100]).2 in
  get_item "Documentation" (highlights st)
  = Some [(100%Z, {| summary := "Explain slicing"; repo := "docs" |})].
Proof. by vm_compute. Qed.

(** The pull request of the main repository is then in no section. *)
Example same_number_drops_an_entry :
  let st := (example_run "0.15.0" None [pull_100_documentation] [docs_pull_100]).2 in
  sections_listing 100 (highlights st) = ["Documentation"].
Proof. by vm_compute. Qed.
